(** * Snake: the two React components of the repository, and their per-tick
      transition

    The repository holds two variants of the game:

    - [App]    : [snake-game-claude/src/App.jsx], drawn with positioned
                 [div]s; the snake array is head first;
    - [Canvas] : the canvas component (arrow keys, WASD, on-screen pad,
                 pause, speed ramp, wall-wrap toggle, high score); the snake
                 array is tail first, the head is its last element.

    Every handler of a component is embedded as a function on the record of
    the component's state variables and refs.  A handler runs to its end,
    then the component renders and its effects run, before the next event is
    handled.  [Math.random()] is an input of the model; a loop that may not
    end is a recursion on the list of the random draws it may consume.
    Coordinates and scores are integers; [speed], a double in the source, is
    a rational here. *)

From Stdlib Require Import ZArith List Bool String Ascii Lia QArith Qminmax.
Import ListNotations.
Open Scope Z_scope.

(** ** Values shared by the two components *)

(** A cell or a direction: the JS object [{ x, y }]. *)
Record point : Type := mkPoint { x : Z; y : Z }.

(** [a.x === b.x && a.y === b.y] *)
Definition same (a b : point) : bool := (x a =? x b) && (y a =? y b).

(** [{ x: p.x + d.x, y: p.y + d.y }] *)
Definition plus (p d : point) : point := {| x := x p + x d; y := y p + y d |}.

(** The wall test of both components:
    [p.x < 0 || p.x >= g || p.y < 0 || p.y >= g]. *)
Definition outside (g : Z) (p : point) : bool :=
  (x p <? 0) || (x p >=? g) || (y p <? 0) || (y p >=? g).

(** The two statements [if (v < 0) v = g - 1; if (v >= g) v = 0;], run in
    this order on one coordinate. *)
Definition wrapAxis (g v : Z) : Z :=
  let v1 := if v <? 0 then g - 1 else v in
  if v1 >=? g then 0 else v1.

Definition wrap (g : Z) (p : point) : point :=
  {| x := wrapAxis g (x p); y := wrapAxis g (y p) |}.

(** One value of [Math.random()]: a number in [0, 1), here the rational
    [numer / (numer + slack + 1)]. *)
Record random : Type := mkRandom { numer : nat; slack : nat }.

(** [Math.floor(Math.random() * n)] *)
Definition floorScaled (u : random) (n : nat) : nat :=
  ((numer u * n) / (numer u + slack u + 1))%nat.

(** What a call does: it returns, it throws (a property read on
    [undefined]), or it is still looping when the supplied random draws are
    used up. *)
Inductive outcome (S : Type) : Type :=
| Returns (s : S)
| Throws
| Spins.
Arguments Returns {S} s.
Arguments Throws {S}.
Arguments Spins {S}.

(** [String.prototype.toLowerCase] on the ASCII letters. *)
Definition lowerAscii (c : ascii) : ascii :=
  let n := nat_of_ascii c in
  if ((65 <=? n) && (n <=? 90))%nat then ascii_of_nat (n + 32) else c.

Fixpoint toLowerCase (s : string) : string :=
  match s with
  | EmptyString => EmptyString
  | String c rest => String (lowerAscii c) (toLowerCase rest)
  end.

(** [for (let i = 0; i < n; i++)]: the values [i] takes. *)
Definition upto (n : Z) : list Z := map Z.of_nat (seq 0 (Z.to_nat n)).

(** The three phases of the specification's state machine. *)
Inductive phase : Type := Paused | Running | Over.

(** ** [snake-game-claude/src/App.jsx] *)
Module App.

Definition GRID_SIZE : Z := 20.
Definition INITIAL_SNAKE : list point := [ {| x := 10; y := 10 |} ].
Definition INITIAL_DIRECTION : point := {| x := 1; y := 0 |}.

(** [gameMode]: ["walls"] or ["pass-through"]. *)
Inductive mode : Type := walls | pass_through.

(** The [useState] variables and the [directionRef] of the component. *)
Record state : Type := mkState {
  snake : list point;
  food : point;
  direction : point;
  gameOver : bool;
  score : Z;
  isPlaying : bool;
  gameMode : mode;
  directionRef : point
}.

(** The first render. *)
Definition initial : state :=
  {| snake := INITIAL_SNAKE;
     food := {| x := 15; y := 15 |};
     direction := INITIAL_DIRECTION;
     gameOver := false;
     score := 0;
     isPlaying := false;
     gameMode := walls;
     directionRef := INITIAL_DIRECTION |}.

(** The phase read off the two flags. *)
Definition phaseOf (st : state) : phase :=
  if gameOver st then Over else if isPlaying st then Running else Paused.

(** The object that one turn of the loop of [generateFood] builds from two
    values of [Math.random()]. *)
Definition drawn (u : random * random) : point :=
  {| x := Z.of_nat (floorScaled (fst u) (Z.to_nat GRID_SIZE));
     y := Z.of_nat (floorScaled (snd u) (Z.to_nat GRID_SIZE)) |}.

(** [generateFood]: the [do ... while] rejection loop. *)
Fixpoint generateFood (draws : list (random * random))
    (currentSnake : list point) : outcome point :=
  match draws with
  | [] => Spins
  | u :: rest =>
      let newFood := drawn u in
      if existsb (fun segment => same segment newFood) currentSnake
      then generateFood rest currentSnake
      else Returns newFood
  end.

Definition resetGame (st : state) : state :=
  {| snake := INITIAL_SNAKE;
     food := {| x := 15; y := 15 |};
     direction := INITIAL_DIRECTION;
     gameOver := false;
     score := 0;
     isPlaying := true;
     gameMode := gameMode st;
     directionRef := INITIAL_DIRECTION |}.

Definition setDirectionRef (d : point) (st : state) : state :=
  {| snake := snake st; food := food st; direction := direction st;
     gameOver := gameOver st; score := score st; isPlaying := isPlaying st;
     gameMode := gameMode st; directionRef := d |}.

Definition setGameMode (m : mode) (st : state) : state :=
  {| snake := snake st; food := food st; direction := direction st;
     gameOver := gameOver st; score := score st; isPlaying := isPlaying st;
     gameMode := m; directionRef := directionRef st |}.

(** [handleKeyPress], on the value of [e.key]. *)
Definition handleKeyPress (ekey : string) (st : state) : state :=
  if negb (isPlaying st) || gameOver st then st
  else
    let key := toLowerCase ekey in
    let currentDir := directionRef st in
    if ((key =? "arrowup") || (key =? "w"))%string && (y currentDir =? 0)
    then setDirectionRef {| x := 0; y := -1 |} st
    else if ((key =? "arrowdown") || (key =? "s"))%string && (y currentDir =? 0)
    then setDirectionRef {| x := 0; y := 1 |} st
    else if ((key =? "arrowleft") || (key =? "a"))%string && (x currentDir =? 0)
    then setDirectionRef {| x := -1; y := 0 |} st
    else if ((key =? "arrowright") || (key =? "d"))%string && (x currentDir =? 0)
    then setDirectionRef {| x := 1; y := 0 |} st
    else st.

(** What both collision branches of the interval callback leave behind:
    [setGameOver(true); setIsPlaying(false); return prevSnake;], then the
    [setDirection(directionRef.current)] that ends the callback. *)
Definition collided (st : state) : state :=
  {| snake := snake st; food := food st; direction := directionRef st;
     gameOver := true; score := score st; isPlaying := false;
     gameMode := gameMode st; directionRef := directionRef st |}.

(** The cell the head moves to once the wall rule of the callback is
    applied; [None] when the rule ends the game. *)
Definition landing (st : state) (head : point) : option point :=
  let newHead := plus head (directionRef st) in
  match gameMode st with
  | walls => if outside GRID_SIZE newHead then None else Some newHead
  | pass_through => Some (wrap GRID_SIZE newHead)
  end.

(** The callback of [setInterval] in the [gameLoop] effect: one tick. *)
Definition gameLoop (draws : list (random * random)) (st : state)
    : outcome state :=
  let prevSnake := snake st in
  match prevSnake with
  | [] => Throws
  | head :: _ =>
      match landing st head with
      | None => Returns (collided st)
      | Some newHead =>
          if existsb (fun segment => same segment newHead) prevSnake
          then Returns (collided st)
          else
            let newSnake := newHead :: prevSnake in
            if same newHead (food st) then
              match generateFood draws newSnake with
              | Returns newFood =>
                  Returns
                    {| snake := newSnake; food := newFood;
                       direction := directionRef st; gameOver := gameOver st;
                       score := score st + 10; isPlaying := isPlaying st;
                       gameMode := gameMode st;
                       directionRef := directionRef st |}
              | Throws => Throws
              | Spins => Spins
              end
            else
              Returns
                {| snake := removelast newSnake; food := food st;
                   direction := directionRef st; gameOver := gameOver st;
                   score := score st; isPlaying := isPlaying st;
                   gameMode := gameMode st;
                   directionRef := directionRef st |}
      end
  end.

(** What the user and the timer can do.  The interval runs only while
    [isPlaying && !gameOver]; "Start Game" is drawn while
    [!isPlaying && !gameOver] and "Play Again" while [gameOver], both call
    [resetGame]; the two mode buttons are disabled while [isPlaying]. *)
Inductive event : Type :=
| Tick (draws : list (random * random))
| KeyDown (ekey : string)
| ClickStart
| ClickMode (m : mode).

Definition enabled (ev : event) (st : state) : bool :=
  match ev with
  | Tick _ => isPlaying st && negb (gameOver st)
  | KeyDown _ => true
  | ClickStart => (negb (isPlaying st) && negb (gameOver st)) || gameOver st
  | ClickMode _ => negb (isPlaying st)
  end.

Definition handle (ev : event) (st : state) : outcome state :=
  match ev with
  | Tick draws => gameLoop draws st
  | KeyDown ekey => Returns (handleKeyPress ekey st)
  | ClickStart => Returns (resetGame st)
  | ClickMode m => Returns (setGameMode m st)
  end.

Inductive step (st : state) (ev : event) (st' : state) : Prop :=
| step_handled :
    enabled ev st = true -> handle ev st = Returns st' -> step st ev st'.

Inductive reachable : state -> Prop :=
| reachable_initial : reachable initial
| reachable_step st ev st' :
    reachable st -> step st ev st' -> reachable st'.

End App.

(** ** The canvas component *)
Module Canvas.

(** The [useState] variables of the component, then its three refs
    ([dirRef], [snakeRef], [runningRef]).  [cellSize], the canvas and the
    clock of the frame loop only serve drawing and timing. *)
Record state : Type := mkState {
  gridSize : Z;
  direction : point;
  snake : list point;
  food : point;
  running : bool;
  speed : Q;
  score : Z;
  highScore : Z;
  wrapWalls : bool;
  dirRef : point;
  snakeRef : list point;
  runningRef : bool
}.

(** The state setters, one per variable that a handler writes. *)
Definition setDirection (v : point) (st : state) : state :=
  mkState (gridSize st) v (snake st) (food st) (running st) (speed st)
    (score st) (highScore st) (wrapWalls st)
    (dirRef st) (snakeRef st) (runningRef st).

Definition setSnake (v : list point) (st : state) : state :=
  mkState (gridSize st) (direction st) v (food st) (running st) (speed st)
    (score st) (highScore st) (wrapWalls st)
    (dirRef st) (snakeRef st) (runningRef st).

Definition setFood (v : point) (st : state) : state :=
  mkState (gridSize st) (direction st) (snake st) v (running st) (speed st)
    (score st) (highScore st) (wrapWalls st)
    (dirRef st) (snakeRef st) (runningRef st).

Definition setRunning (v : bool) (st : state) : state :=
  mkState (gridSize st) (direction st) (snake st) (food st) v (speed st)
    (score st) (highScore st) (wrapWalls st)
    (dirRef st) (snakeRef st) (runningRef st).

Definition setSpeed (v : Q) (st : state) : state :=
  mkState (gridSize st) (direction st) (snake st) (food st) (running st) v
    (score st) (highScore st) (wrapWalls st)
    (dirRef st) (snakeRef st) (runningRef st).

Definition setScore (v : Z) (st : state) : state :=
  mkState (gridSize st) (direction st) (snake st) (food st) (running st)
    (speed st) v (highScore st) (wrapWalls st)
    (dirRef st) (snakeRef st) (runningRef st).

Definition setHighScore (v : Z) (st : state) : state :=
  mkState (gridSize st) (direction st) (snake st) (food st) (running st)
    (speed st) (score st) v (wrapWalls st)
    (dirRef st) (snakeRef st) (runningRef st).

Definition setWrapWalls (v : bool) (st : state) : state :=
  mkState (gridSize st) (direction st) (snake st) (food st) (running st)
    (speed st) (score st) (highScore st) v
    (dirRef st) (snakeRef st) (runningRef st).

(** [dirRef.current = v] *)
Definition assignDirRef (v : point) (st : state) : state :=
  mkState (gridSize st) (direction st) (snake st) (food st) (running st)
    (speed st) (score st) (highScore st) (wrapWalls st)
    v (snakeRef st) (runningRef st).

(** The three effects under "keep refs in sync", run after a render. *)
Definition syncRefs (st : state) : state :=
  mkState (gridSize st) (direction st) (snake st) (food st) (running st)
    (speed st) (score st) (highScore st) (wrapWalls st)
    (direction st) (snake st) (running st).

(** The key [`${p.x},${p.y}`] of a cell in the [Set] of taken cells.  The
    text is one-to-one on pairs of integers, so the pair stands for it. *)
Definition key (p : point) : Z * Z := (x p, y p).

(** [taken.has(k)] *)
Definition has (taken : list (Z * Z)) (k : Z * Z) : bool :=
  existsb (fun k' => (fst k' =? fst k) && (snd k' =? snd k)) taken.

(** The cells of the grid in the order of the two nested loops. *)
Definition cells (grid : Z) : list point :=
  flat_map (fun i => map (fun j => {| x := i; y := j |}) (upto grid))
           (upto grid).

(** The array [free] built by [randomFoodPosition]. *)
Definition freeCells (snakeArr : list point) (grid : Z) : list point :=
  let taken := map key snakeArr in
  filter (fun c => negb (has taken (key c))) (cells grid).

(** [randomFoodPosition(snakeArr, grid)]; [u] is the value of
    [Math.random()].  The index is below [free.length] ([floorScaled_lt]), so
    the default of [nth] is never read. *)
Definition randomFoodPosition (snakeArr : list point) (grid : Z)
    (u : random) : point :=
  let free := freeCells snakeArr grid in
  match free with
  | [] => {| x := 0; y := 0 |}
  | _ :: _ => nth (floorScaled u (List.length free)) free {| x := 0; y := 0 |}
  end.

(** The snake of the first render and of [resetGame]. *)
Definition start (g : Z) : list point :=
  [ {| x := g / 2 - 1; y := g / 2 |}; {| x := g / 2; y := g / 2 |} ].

(** The first render: [u] draws the first food, [stored] is what
    [localStorage] holds under ["snake_high_score"]. *)
Definition initial (u : random) (stored : Z) : state :=
  {| gridSize := 20;
     direction := {| x := 1; y := 0 |};
     snake := start 20;
     food := randomFoodPosition (start 20) 20 u;
     running := false;
     speed := 8;
     score := 0;
     highScore := stored;
     wrapWalls := true;
     dirRef := {| x := 1; y := 0 |};
     snakeRef := start 20;
     runningRef := false |}.

(** [endGame].  It reads [score] from the render whose closure runs, [scope];
    the write to [localStorage] stores the same maximum. *)
Definition endGame (scope st : state) : state :=
  setHighScore (Z.max (highScore st) (score scope)) (setRunning false st).

(** [curSnake[curSnake.length - 1]] *)
Definition headOf (curSnake : list point) : option point :=
  match curSnake with
  | [] => None
  | _ :: _ => Some (last curSnake {| x := 0; y := 0 |})
  end.

(** The cell the head moves to once the wall rule of [moveSnake] is applied;
    [None] when the rule ends the game. *)
Definition landing (scope : state) (head nd : point) : option point :=
  let newHead := plus head nd in
  if wrapWalls scope then Some (wrap (gridSize scope) newHead)
  else if outside (gridSize scope) newHead then None
  else Some newHead.

(** [moveSnake]: one tick.  [food], [wrapWalls], [gridSize] and, through
    [endGame], [score] are variables of the render whose closure runs,
    [scope]; the snake and the direction are read from the refs; the setters
    act on the current state [st]. *)
Definition moveSnake (scope st : state) (u : random) : outcome state :=
  let curSnake := snakeRef st in
  match headOf curSnake with
  | None => Throws
  | Some head =>
      let nd := dirRef st in
      match landing scope head nd with
      | None => Returns (endGame scope st)
      | Some newHead =>
          let collideSelf := existsb (fun p => same p newHead) curSnake in
          if collideSelf then Returns (endGame scope st)
          else
            let pushed := curSnake ++ [newHead] in
            if same newHead (food scope) then
              let next := randomFoodPosition pushed (gridSize scope) u in
              Returns
                (setSnake pushed
                   (setSpeed (Qmin 20 (speed st + (3 # 10)))%Q
                      (setFood next (setScore (score st + 1) st))))
            else Returns (setSnake (tl pushed) st)
      end
  end.

(** The object [map] of [handleKey]. *)
Definition map : list (string * point) :=
  [ ("ArrowUp", {| x := 0; y := -1 |});
    ("ArrowDown", {| x := 0; y := 1 |});
    ("ArrowLeft", {| x := -1; y := 0 |});
    ("ArrowRight", {| x := 1; y := 0 |});
    ("w", {| x := 0; y := -1 |});
    ("s", {| x := 0; y := 1 |});
    ("a", {| x := -1; y := 0 |});
    ("d", {| x := 1; y := 0 |}) ]%string.

(** [map[key]], for the keys that [map] itself holds or that no object
    holds.  A key named after a member of [Object.prototype] (["toString"],
    ["constructor"], ...) finds that member in the code; no keyboard sends
    such a key, and the statements on keys below are on the others. *)
Fixpoint lookup (k : string) (m : list (string * point)) : option point :=
  match m with
  | [] => None
  | (k', v) :: rest => if (k' =? k)%string then Some v else lookup k rest
  end.

(** [handleKey], on the value of [e.key]. *)
Definition handleKey (ekey : string) (st : state) : state :=
  if ((ekey =? " ") || (ekey =? "Spacebar"))%string
  then setRunning (negb (running st)) st
  else
    match lookup ekey map with
    | Some nd =>
        let cur := dirRef st in
        if (x cur + x nd =? 0) && (y cur + y nd =? 0) then st
        else setDirection nd st
    | None => st
    end.

(** [turn(dx, dy)], the on-screen pad. *)
Definition turn (dx dy : Z) (st : state) : state :=
  let cur := dirRef st in
  if (x cur + dx =? 0) && (y cur + dy =? 0) then st
  else setDirection {| x := dx; y := dy |} st.

(** [resetGame]; [u] draws the food. *)
Definition resetGame (u : random) (st : state) : state :=
  let st1 := setSnake (start (gridSize st)) st in
  let st2 := assignDirRef {| x := 1; y := 0 |} st1 in
  let st3 := setDirection {| x := 1; y := 0 |} st2 in
  let f := randomFoodPosition (start (gridSize st)) (gridSize st) u in
  let st4 := setFood f st3 in
  let st5 := setScore 0 st4 in
  let st6 := setSpeed 8 st5 in
  setRunning false st6.

(** The Start/Pause buttons: [setRunning((r) => !r)]. *)
Definition toggleRunning (st : state) : state :=
  setRunning (negb (running st)) st.

(** The Walls button: [setWrapWalls((w) => !w)]. *)
Definition toggleWalls (st : state) : state :=
  setWrapWalls (negb (wrapWalls st)) st.

(** The Clear High button. *)
Definition clearHigh (st : state) : state :=
  setHighScore 0 (setScore 0 st).

(** The running component: the state after the last render, and the render
    whose variables the frame loop sees.  The effect that installs [tick]
    has the dependency list [[speed]], so [tick], and the [moveSnake] it
    calls, belong to the last render on which [speed] changed. *)
Record world : Type := mkWorld { scene : state; tickScope : state }.

Inductive pad : Type := PadUp | PadLeft | PadRight | PadDown.

Definition padDelta (b : pad) : Z * Z :=
  match b with
  | PadUp => (0, -1)
  | PadLeft => (-1, 0)
  | PadRight => (1, 0)
  | PadDown => (0, 1)
  end.

(** What the user and the browser can do.  [Frame] is an animation frame on
    which the interval [1000 / speed] has elapsed. *)
Inductive event : Type :=
| Frame (u : random)
| KeyDown (ekey : string)
| ClickPad (b : pad)
| ClickStart
| ClickReset (u : random)
| ClickWalls
| ClickClearHigh
| Slide (v : Q).

Definition handle (ev : event) (w : world) : outcome state :=
  let st := scene w in
  match ev with
  | Frame u =>
      if runningRef st then moveSnake (tickScope w) st u else Returns st
  | KeyDown ekey => Returns (handleKey ekey st)
  | ClickPad b => Returns (turn (fst (padDelta b)) (snd (padDelta b)) st)
  | ClickStart => Returns (toggleRunning st)
  | ClickReset u => Returns (resetGame u st)
  | ClickWalls => Returns (toggleWalls st)
  | ClickClearHigh => Returns (clearHigh st)
  | Slide v => Returns (setSpeed v st)
  end.

(** The render that follows a handler: the refs are synchronised, and the
    frame loop is installed again when [speed] changed.  The code compares
    doubles with [Object.is]; the speeds here are the exact rationals, which
    agree with it on 8, on the cap 20 and wherever [setSpeed] is not
    called. *)
Definition rendered (w : world) (st1 : state) : world :=
  let st' := syncRefs st1 in
  {| scene := st';
     tickScope :=
       if Qeq_bool (speed st') (speed (scene w)) then tickScope w else st' |}.

Definition dispatch (ev : event) (w : world) : outcome world :=
  match handle ev w with
  | Returns st1 => Returns (rendered w st1)
  | Throws => Throws
  | Spins => Spins
  end.

(** A sequence of events, one render after each. *)
Fixpoint run (evs : list event) (w : world) : outcome world :=
  match evs with
  | [] => Returns w
  | ev :: rest =>
      match dispatch ev w with
      | Returns w' => run rest w'
      | Throws => Throws
      | Spins => Spins
      end
  end.

Definition mounted (u : random) (stored : Z) : world :=
  {| scene := initial u stored; tickScope := initial u stored |}.

Inductive reachable : world -> Prop :=
| reachable_mounted u stored : reachable (mounted u stored)
| reachable_dispatch w ev w' :
    reachable w -> dispatch ev w = Returns w' -> reachable w'.

End Canvas.

(** ** Sample positions *)

(** A path through every cell of the grid, row after row, alternately left
    to right and right to left; it starts at (0,0). *)
Definition serpentine (g : Z) : list point :=
  flat_map
    (fun j =>
       let row := List.map (fun i => {| x := i; y := j |}) (upto g) in
       if Z.even j then row else rev row)
    (upto g).

(** Row 10 of the 20x20 grid, from (0,10) to (19,10). *)
Definition row10 : list point :=
  List.map (fun i => {| x := i; y := 10 |}) (upto 20).

(** A snake coiled on the square (5,5) (6,5) (6,6) (5,6), tail to head. *)
Definition coil : list point :=
  [ {| x := 5; y := 5 |}; {| x := 6; y := 5 |};
    {| x := 6; y := 6 |}; {| x := 5; y := 6 |} ].

Definition dirUp : point := {| x := 0; y := -1 |}.
Definition dirDown : point := {| x := 0; y := 1 |}.
Definition dirLeft : point := {| x := -1; y := 0 |}.
Definition dirRight : point := {| x := 1; y := 0 |}.

(** The four directions the handlers can set. *)
Definition unitDirection (d : point) : Prop :=
  d = dirUp \/ d = dirDown \/ d = dirLeft \/ d = dirRight.

(** [-d] *)
Definition negate (d : point) : point := {| x := - x d; y := - y d |}.

(** A cell of the [g] x [g] grid. *)
Definition inGrid (g : Z) (p : point) : Prop :=
  0 <= x p < g /\ 0 <= y p < g.

(** A game of [App] under way: snake head first. *)
Definition appPlaying (body : list point) (d f : point) (m : App.mode)
    : App.state :=
  {| App.snake := body; App.food := f; App.direction := d;
     App.gameOver := false; App.score := 0; App.isPlaying := true;
     App.gameMode := m; App.directionRef := d |}.

(** A game of [Canvas] under way: snake tail first, refs synchronised. *)
Definition canvasPlaying (body : list point) (d f : point) (wrapping : bool)
    : Canvas.state :=
  {| Canvas.gridSize := 20; Canvas.direction := d; Canvas.snake := body;
     Canvas.food := f; Canvas.running := true; Canvas.speed := 8;
     Canvas.score := 0; Canvas.highScore := 0;
     Canvas.wrapWalls := wrapping; Canvas.dirRef := d;
     Canvas.snakeRef := body; Canvas.runningRef := true |}.

(** The coiled snake with its head on (5,6), heading up to the cell (5,5)
    of its tail; the food is elsewhere. *)
Definition appCoiled : App.state :=
  appPlaying (rev coil) dirUp {| x := 15; y := 15 |} App.walls.

Definition canvasCoiled : Canvas.state :=
  canvasPlaying coil dirUp {| x := 15; y := 15 |} false.

(** The snake along the whole of row 10, its head on (19,10) and its tail
    one cell further on (0,11), moving right through wrapping walls. *)
Definition appAlongRow : App.state :=
  appPlaying (rev ({| x := 0; y := 11 |} :: row10)) dirRight
    {| x := 15; y := 15 |} App.pass_through.

(** A short game of [Canvas]: solid walls, a new speed (which installs the
    frame loop again), start, and ten ticks to the right from (10,10); the
    tenth runs into the right wall. *)
Definition intoTheWall : list Canvas.event :=
  [ Canvas.ClickWalls; Canvas.Slide 10; Canvas.ClickStart ]
  ++ repeat (Canvas.Frame (mkRandom 0 0)) 10.

(** The events of [Canvas] that flip [running]: the Start/Pause buttons and
    the space bar. *)
Definition togglesRunning (ev : Canvas.event) : bool :=
  match ev with
  | Canvas.ClickStart => true
  | Canvas.KeyDown ekey => ((ekey =? " ") || (ekey =? "Spacebar"))%string
  | _ => false
  end.

(** The invariant of the snake: no cell twice, at least one cell. *)
Definition wellFormed (body : list point) : Prop :=
  NoDup body /\ (1 <= List.length body)%nat.

(** The last bite: the snake lies on all of [serpentine 20] but its last
    cell (0,19), where the food is, and its head at (1,19) moves left. *)
Definition canvasLastBite : Canvas.state :=
  canvasPlaying (removelast (serpentine 20)) dirLeft {| x := 0; y := 19 |} true.

Definition appLastBite : App.state :=
  appPlaying (rev (removelast (serpentine 20))) dirLeft {| x := 0; y := 19 |}
    App.walls.

(** The scenario of the specification: a snake of two cells with its head
    on (19,10), moving right on the 20x20 grid. *)
Definition appAtEdge (m : App.mode) : App.state :=
  appPlaying [ {| x := 19; y := 10 |}; {| x := 18; y := 10 |} ] dirRight
    {| x := 15; y := 15 |} m.

Definition canvasAtEdge (wrapping : bool) : Canvas.state :=
  canvasPlaying [ {| x := 18; y := 10 |}; {| x := 19; y := 10 |} ] dirRight
    {| x := 15; y := 15 |} wrapping.

(** The direction that a key, in lower case, asks [handleKeyPress] for. *)
Definition appRequest (key : string) : option point :=
  if ((key =? "arrowup") || (key =? "w"))%string then Some dirUp
  else if ((key =? "arrowdown") || (key =? "s"))%string then Some dirDown
  else if ((key =? "arrowleft") || (key =? "a"))%string then Some dirLeft
  else if ((key =? "arrowright") || (key =? "d"))%string then Some dirRight
  else None.

(** Every cell of the [g] x [g] grid is a cell of [body]. *)
Definition fillsGrid (g : Z) (body : list point) : bool :=
  forallb (fun c => existsb (fun s => same s c) body) (Canvas.cells g).

(** ** Shapes of states *)

(** [a] is the cell next to [b] in some direction, straight or through the
    border of the [g] x [g] grid. *)
Definition near (g : Z) (a b : point) : Prop :=
  exists d, unitDirection d /\ (a = plus b d \/ a = wrap g (plus b d)).

(** Every element of the list stands in [R] to the one that follows it. *)
Fixpoint linked (R : point -> point -> Prop) (l : list point) : Prop :=
  match l with
  | a :: (b :: _) as rest => R a b /\ linked R rest
  | _ => True
  end.

(** [a.x * b.x + a.y * b.y]: zero when two unit directions are at a right
    angle. *)
Definition dot (a b : point) : Z := x a * x b + y a * y b.

(** What holds of every state of [App] that a game can reach. *)
Definition appShape (st : App.state) : Prop :=
  unitDirection (App.directionRef st) /\
  unitDirection (App.direction st) /\
  Forall (inGrid App.GRID_SIZE) (App.snake st) /\
  inGrid App.GRID_SIZE (App.food st) /\
  App.score st = 10 * (Z.of_nat (List.length (App.snake st)) - 1) /\
  linked (near App.GRID_SIZE) (App.snake st) /\
  (App.gameOver st = true -> App.isPlaying st = false) /\
  (App.isPlaying st = false -> App.gameOver st = false ->
   st = App.setGameMode (App.gameMode st) App.initial).

(** What holds of the component [Canvas] after every render of a game. *)
Definition canvasShape (w : Canvas.world) : Prop :=
  Canvas.gridSize (Canvas.scene w) = 20 /\
  Canvas.gridSize (Canvas.tickScope w) = 20 /\
  Canvas.dirRef (Canvas.scene w) = Canvas.direction (Canvas.scene w) /\
  Canvas.snakeRef (Canvas.scene w) = Canvas.snake (Canvas.scene w) /\
  Canvas.runningRef (Canvas.scene w) = Canvas.running (Canvas.scene w) /\
  unitDirection (Canvas.dirRef (Canvas.scene w)) /\
  Forall (inGrid 20) (Canvas.snake (Canvas.scene w)) /\
  inGrid 20 (Canvas.food (Canvas.scene w)) /\
  linked (fun b a => near 20 a b) (Canvas.snake (Canvas.scene w)) /\
  0 <= Canvas.score (Canvas.scene w)
    <= Z.of_nat (List.length (Canvas.snake (Canvas.scene w))) - 2.

(** The part of [canvasShape] that speaks of the state variables alone. *)
Definition sceneShape (st : Canvas.state) : Prop :=
  Canvas.gridSize st = 20 /\
  unitDirection (Canvas.direction st) /\
  Forall (inGrid 20) (Canvas.snake st) /\
  inGrid 20 (Canvas.food st) /\
  linked (fun b a => near 20 a b) (Canvas.snake st) /\
  0 <= Canvas.score st <= Z.of_nat (List.length (Canvas.snake st)) - 2.


(** The events of [Canvas] whose handlers never call [setSpeed]. *)
Definition leavesSpeed (ev : Canvas.event) : bool :=
  match ev with
  | Canvas.KeyDown _ | Canvas.ClickPad _ | Canvas.ClickStart
  | Canvas.ClickWalls | Canvas.ClickClearHigh => true
  | Canvas.Frame _ | Canvas.ClickReset _ | Canvas.Slide _ => false
  end.

(** ** The frame loop and the painter of the canvas component *)

(** One call of [tick] at the time [now], in the loop installed for
    [speed]: it tells whether [moveSnake] is called and gives the new value
    of [lastMoveRef.current].  Times are the milliseconds of [Date.now()]. *)
Definition tick (speed : Q) (runningRef : bool) (lastMoveRef now : Z)
    : bool * Z :=
  let interval := (1000 / speed)%Q in
  if runningRef && Qle_bool interval (inject_Z (now - lastMoveRef))
  then (true, now)
  else (false, lastMoveRef).

(** A run of animation frames, each with its time and the value of
    [runningRef.current] it finds: the number of calls of [moveSnake], and
    the last value of [lastMoveRef.current]. *)
Fixpoint ticks (speed : Q) (lastMoveRef : Z) (frames : list (Z * bool))
    : nat * Z :=
  match frames with
  | [] => (0%nat, lastMoveRef)
  | (now, runningRef) :: rest =>
      let (moved, last') := tick speed runningRef lastMoveRef now in
      let (n, final) := ticks speed last' rest in
      ((if moved then S n else n), final)
  end.

(** What [drawCell] puts on the canvas: a [fillRect], or the path of
    [roundRect] filled, each with the fill style set before. *)
Inductive painted : Type :=
| FillRect (color : string) (px py w h : Z)
| RoundRect (color : string) (px py w h : Z) (r : Q).

(** [drawCell(ctx, x, y, size, color, radius = 0)] *)
Definition drawCell (cx cy size : Z) (color : string) (radius : Z)
    : painted :=
  let px := cx * size in
  let py := cy * size in
  if radius >? 0 then
    let r := Qmin (inject_Z radius) (inject_Z size / 3) in
    RoundRect color (px + 1) (py + 1) (size - 2) (size - 2) r
  else FillRect color (px + 1) (py + 1) (size - 2) (size - 2).

(** The rectangle a painted cell lies in: left, top, width, height. *)
Definition boxOf (p : painted) : Z * Z * Z * Z :=
  match p with
  | FillRect _ px py w h => (px, py, w, h)
  | RoundRect _ px py w h _ => (px, py, w, h)
  end.

Definition colorOf (p : painted) : string :=
  match p with
  | FillRect color _ _ _ _ => color
  | RoundRect color _ _ _ _ _ => color
  end.

(** The loop of [draw] over the snake, from index [i] on; [n] is
    [snake.length]. *)
Fixpoint drawSnakeFrom (i n : nat) (parts : list point) (cellSize : Z)
    : list painted :=
  match parts with
  | [] => []
  | part :: rest =>
      let isHead := (i =? n - 1)%nat in
      let color := if isHead then "#10b981"%string else "#34d399"%string in
      drawCell (x part) (y part) cellSize color (if isHead then 4 else 2)
      :: drawSnakeFrom (S i) n rest cellSize
  end.

(** The food and the snake as [draw] paints them, in this order. *)
Definition drawPieces (snake : list point) (food : point) (cellSize : Z)
    : list painted :=
  drawCell (x food) (y food) cellSize "#ef4444" 0
  :: drawSnakeFrom 0 (List.length snake) snake cellSize.

(** ** The frame loop and the state; the keys of a keyboard *)

(** The render [scope] of the frame loop shows the food, the wall mode and
    the grid that the state [st] holds: the loop was installed after they
    last changed. *)
Definition upToDate (scope st : Canvas.state) : Prop :=
  Canvas.food scope = Canvas.food st /\
  Canvas.wrapWalls scope = Canvas.wrapWalls st /\
  Canvas.gridSize scope = Canvas.gridSize st.

(** The names that [map[key]] finds on [Object.prototype], not on [map]
    itself.  No key of a keyboard has such a name; [Canvas.lookup], which
    searches [map] alone, is the lookup of the code on every other key. *)
Definition inheritedKeys : list string :=
  [ "constructor"; "hasOwnProperty"; "isPrototypeOf";
    "propertyIsEnumerable"; "toLocaleString"; "toString"; "valueOf";
    "__proto__"; "__defineGetter__"; "__defineSetter__";
    "__lookupGetter__"; "__lookupSetter__" ]%string.

Definition fromKeyboard (ev : Canvas.event) : bool :=
  match ev with
  | Canvas.KeyDown ekey => negb (existsb (String.eqb ekey) inheritedKeys)
  | _ => true
  end.

(** The renders of [Canvas] that a game reaches when no key event carries
    an inherited name. *)
Inductive played : Canvas.world -> Prop :=
| played_mounted u stored : played (Canvas.mounted u stored)
| played_dispatch w ev w' :
    played w -> fromKeyboard ev = true ->
    Canvas.dispatch ev w = Returns w' -> played w'.

(** Solid walls chosen before the start, the speed untouched, then nine
    ticks to the right from (10,10): the head stands on (19,10). *)
Definition toTheWall : list Canvas.event :=
  [ Canvas.ClickWalls; Canvas.ClickStart ]
  ++ repeat (Canvas.Frame (mkRandom 0 0)) 9.

(** After the last bite of [Canvas]: the snake on every cell, its head on
    (0,19) turned down, the food on the corner (0,0) under its tail. *)
Definition canvasFull : Canvas.state :=
  canvasPlaying (serpentine 20) dirDown {| x := 0; y := 0 |} true.

(** * Properties *)

(** ** Lists, cells and random draws *)

Lemma same_spec (a b : point) : same a b = true <-> a = b.
Proof.
  unfold same. destruct a as [ax ay], b as [bx by']. simpl.
  rewrite andb_true_iff, !Z.eqb_eq. split.
  - intros [-> ->]. reflexivity.
  - intros E. injection E as -> ->. split; reflexivity.
Qed.

Lemma same_refl (a : point) : same a a = true.
Proof. apply same_spec. reflexivity. Qed.

Lemma some_same_In (p : point) (l : list point) :
  existsb (fun s => same s p) l = true <-> In p l.
Proof.
  rewrite existsb_exists. split.
  - intros [q [Hq E]]. apply same_spec in E. subst q. exact Hq.
  - intros H. exists p. split; [exact H | apply same_refl].
Qed.

Lemma some_same_not_In (p : point) (l : list point) :
  existsb (fun s => same s p) l = false <-> ~ In p l.
Proof.
  rewrite <- some_same_In. destruct (existsb _ l); split; intros H;
    try discriminate; try reflexivity; try (intros E; discriminate).
  exfalso. apply H. reflexivity.
Qed.

Lemma floorScaled_lt (u : random) (n : nat) :
  (0 < n)%nat -> (floorScaled u n < n)%nat.
Proof.
  intros Hn. unfold floorScaled.
  apply Nat.Div0.div_lt_upper_bound. nia.
Qed.

Lemma last_In (l : list point) (d : point) : l <> [] -> In (last l d) l.
Proof.
  induction l as [|a l IH]; intros Hne; [contradiction|].
  destruct l as [|b l].
  - left. reflexivity.
  - right. apply IH. discriminate.
Qed.

Lemma headOf_In (l : list point) (h : point) :
  Canvas.headOf l = Some h -> In h l.
Proof.
  destruct l as [|a l]; simpl; [discriminate|].
  intros E. injection E as <-. apply (last_In (a :: l)). discriminate.
Qed.

Lemma headOf_push (l : list point) (p : point) :
  Canvas.headOf (l ++ [p]) = Some p.
Proof.
  unfold Canvas.headOf. destruct (l ++ [p]) eqn:E.
  - destruct l; discriminate.
  - rewrite <- E. rewrite last_last. reflexivity.
Qed.

Lemma upto_In (n i : Z) : In i (upto n) <-> 0 <= i < n.
Proof.
  unfold upto. rewrite in_map_iff. split.
  - intros [k [<- Hk]]. apply in_seq in Hk. lia.
  - intros H. exists (Z.to_nat i). split; [lia|]. apply in_seq. lia.
Qed.

Lemma cells_inGrid (g : Z) (c : point) : In c (Canvas.cells g) <-> inGrid g c.
Proof.
  unfold Canvas.cells, inGrid. rewrite in_flat_map. split.
  - intros [i [Hi Hc]]. apply in_map_iff in Hc. destruct Hc as [j [<- Hj]].
    apply upto_In in Hi. apply upto_In in Hj. simpl. lia.
  - intros [Hx Hy]. exists (x c). split; [apply upto_In; exact Hx|].
    apply in_map_iff. exists (y c). split; [|apply upto_In; exact Hy].
    destruct c; reflexivity.
Qed.

Lemma has_key_In (l : list point) (c : point) :
  Canvas.has (List.map Canvas.key l) (Canvas.key c) = true <-> In c l.
Proof.
  unfold Canvas.has. rewrite existsb_exists. split.
  - intros [k [Hk E]]. apply in_map_iff in Hk. destruct Hk as [q [<- Hq]].
    assert (q = c) as <-; [|exact Hq].
    apply same_spec. exact E.
  - intros H. exists (Canvas.key c). split.
    + apply in_map. exact H.
    + apply (same_refl c).
Qed.

Lemma freeCells_In (l : list point) (g : Z) (c : point) :
  In c (Canvas.freeCells l g) <-> inGrid g c /\ ~ In c l.
Proof.
  unfold Canvas.freeCells. rewrite filter_In, cells_inGrid, negb_true_iff.
  rewrite <- has_key_In.
  destruct (Canvas.has (List.map Canvas.key l) (Canvas.key c)); split;
    intros [H1 H2]; split; auto; try discriminate.
  exfalso. apply H2. reflexivity.
Qed.

(** With a free cell left, [randomFoodPosition] returns one of them. *)
Lemma randomFoodPosition_free (l : list point) (g : Z) (u : random) :
  Canvas.freeCells l g <> [] ->
  In (Canvas.randomFoodPosition l g u) (Canvas.freeCells l g).
Proof.
  unfold Canvas.randomFoodPosition. intros Hne.
  destruct (Canvas.freeCells l g) as [|c free] eqn:E; [contradiction|].
  apply nth_In. apply floorScaled_lt. simpl. lia.
Qed.

(** With no free cell left, it returns the corner (0,0). *)
Lemma randomFoodPosition_fallback (l : list point) (g : Z) (u : random) :
  Canvas.freeCells l g = [] ->
  Canvas.randomFoodPosition l g u = {| x := 0; y := 0 |}.
Proof.
  unfold Canvas.randomFoodPosition. intros ->. reflexivity.
Qed.

(** ** C1: a move onto the tail cell *)

(** C1, as the code has it: the self-collision test runs on the whole body
    before the tail is dropped, so for every snake of length >= 2 whose
    head's next cell (after the wall rule) is its tail cell, the tick ends
    the game and leaves Snake, Score and Food as they were.  In [App] the
    tail is the last element of the array, in [Canvas] the first. *)
Theorem tail_cell_is_a_collision :
  (forall draws st head body,
      App.snake st = head :: body ->
      (2 <= List.length (App.snake st))%nat ->
      App.landing st head = Some (last body head) ->
      App.gameLoop draws st = Returns (App.collided st) /\
      App.phaseOf (App.collided st) = Over /\
      App.snake (App.collided st) = App.snake st /\
      App.score (App.collided st) = App.score st /\
      App.food (App.collided st) = App.food st)
  /\
  (forall scope st u tail body head,
      Canvas.snakeRef st = tail :: body ->
      (2 <= List.length (Canvas.snakeRef st))%nat ->
      Canvas.headOf (Canvas.snakeRef st) = Some head ->
      Canvas.landing scope head (Canvas.dirRef st) = Some tail ->
      Canvas.moveSnake scope st u = Returns (Canvas.endGame scope st) /\
      Canvas.running (Canvas.endGame scope st) = false /\
      Canvas.snake (Canvas.endGame scope st) = Canvas.snake st /\
      Canvas.score (Canvas.endGame scope st) = Canvas.score st /\
      Canvas.food (Canvas.endGame scope st) = Canvas.food st).
Proof.
  split.
  - intros draws st head body Hs Hlen Hland.
    repeat split; try reflexivity.
    unfold App.gameLoop. rewrite Hs, Hland.
    assert (Hin : In (last body head) (head :: body)).
    { destruct body as [|b body].
      - rewrite Hs in Hlen. simpl in Hlen. lia.
      - right. apply last_In. discriminate. }
    apply some_same_In in Hin. rewrite Hin. reflexivity.
  - intros scope st u tail body head Hs Hlen Hh Hland.
    repeat split; try reflexivity.
    unfold Canvas.moveSnake. rewrite Hh, Hland.
    assert (Hin : In tail (Canvas.snakeRef st)).
    { rewrite Hs. left. reflexivity. }
    apply some_same_In in Hin. rewrite Hin. reflexivity.
Qed.

Lemma tail_cell_is_a_collision_witness :
  App.gameLoop [] appCoiled = Returns (App.collided appCoiled)
  /\
  Canvas.moveSnake canvasCoiled canvasCoiled (mkRandom 0 0)
  = Returns (Canvas.endGame canvasCoiled canvasCoiled).
Proof.
  destruct tail_cell_is_a_collision as [HA HC]. split.
  - apply (HA [] appCoiled {| x := 5; y := 6 |}
              [ {| x := 6; y := 6 |}; {| x := 6; y := 5 |};
                {| x := 5; y := 5 |} ]).
    + reflexivity.
    + simpl. lia.
    + reflexivity.
  - apply (HC canvasCoiled canvasCoiled (mkRandom 0 0) {| x := 5; y := 5 |}
              [ {| x := 6; y := 5 |}; {| x := 6; y := 6 |};
                {| x := 5; y := 6 |} ] {| x := 5; y := 6 |}).
    + reflexivity.
    + simpl. lia.
    + reflexivity.
    + reflexivity.
Defined.

(** C1 as the specification words it fails on the coiled snake: the head at
    (5,6) heads up to the tail cell (5,5), which is not the food cell, and
    neither component continues with the snake moved on by one cell. *)
Lemma tail_cell_counterexample :
  (App.snake appCoiled
   = [ {| x := 5; y := 6 |}; {| x := 6; y := 6 |};
       {| x := 6; y := 5 |}; {| x := 5; y := 5 |} ] /\
   App.landing appCoiled {| x := 5; y := 6 |} = Some {| x := 5; y := 5 |} /\
   App.food appCoiled <> {| x := 5; y := 5 |} /\
   ~ exists draws st',
       App.gameLoop draws appCoiled = Returns st' /\
       App.phaseOf st' = Running /\
       App.snake st' =
         [ {| x := 5; y := 5 |}; {| x := 5; y := 6 |};
           {| x := 6; y := 6 |}; {| x := 6; y := 5 |} ])
  /\
  (Canvas.snakeRef canvasCoiled
   = [ {| x := 5; y := 5 |}; {| x := 6; y := 5 |};
       {| x := 6; y := 6 |}; {| x := 5; y := 6 |} ] /\
   Canvas.landing canvasCoiled {| x := 5; y := 6 |}
     (Canvas.dirRef canvasCoiled)
   = Some {| x := 5; y := 5 |} /\
   Canvas.food canvasCoiled <> {| x := 5; y := 5 |} /\
   ~ exists u st',
       Canvas.moveSnake canvasCoiled canvasCoiled u = Returns st' /\
       Canvas.running st' = true /\
       Canvas.snake st' =
         [ {| x := 6; y := 5 |}; {| x := 6; y := 6 |};
           {| x := 5; y := 6 |}; {| x := 5; y := 5 |} ]).
Proof.
  split; (split; [reflexivity|]); (split; [reflexivity|]);
    (split; [discriminate|]).
  - intros [draws [st' [E [Hp _]]]].
    change (App.gameLoop draws appCoiled)
      with (Returns (App.collided appCoiled)) in E.
    injection E as <-. discriminate Hp.
  - intros [u [st' [E [Hr _]]]].
    change (Canvas.moveSnake canvasCoiled canvasCoiled u)
      with (Returns (Canvas.endGame canvasCoiled canvasCoiled)) in E.
    injection E as <-. discriminate Hr.
Qed.

(** ** C2: reset *)

(** C2, as the code has it: from every prior state [resetGame] restores the
    fixed Snake, Direction and Score (and, in [Canvas], Speed), keeps the
    wall mode (and the high score), and two resets in a row leave what one
    leaves.  [App] puts the food back on (15,15) and starts the game at once
    (Phase = Running); [Canvas] stops the game (not running) and draws the
    food at random among the cells off the initial snake, so two resets
    agree when their draws agree. *)
Theorem reset_is_canonical :
  (forall st,
      App.resetGame st =
        {| App.snake := App.INITIAL_SNAKE;
           App.food := {| x := 15; y := 15 |};
           App.direction := App.INITIAL_DIRECTION;
           App.gameOver := false;
           App.score := 0;
           App.isPlaying := true;
           App.gameMode := App.gameMode st;
           App.directionRef := App.INITIAL_DIRECTION |} /\
      App.phaseOf (App.resetGame st) = Running /\
      App.resetGame (App.resetGame st) = App.resetGame st)
  /\
  (forall u st,
      Canvas.snake (Canvas.resetGame u st) = Canvas.start (Canvas.gridSize st) /\
      Canvas.direction (Canvas.resetGame u st) = dirRight /\
      Canvas.dirRef (Canvas.resetGame u st) = dirRight /\
      Canvas.score (Canvas.resetGame u st) = 0 /\
      Canvas.speed (Canvas.resetGame u st) = 8%Q /\
      Canvas.running (Canvas.resetGame u st) = false /\
      Canvas.food (Canvas.resetGame u st) =
        Canvas.randomFoodPosition (Canvas.start (Canvas.gridSize st))
          (Canvas.gridSize st) u /\
      Canvas.wrapWalls (Canvas.resetGame u st) = Canvas.wrapWalls st /\
      Canvas.highScore (Canvas.resetGame u st) = Canvas.highScore st /\
      Canvas.gridSize (Canvas.resetGame u st) = Canvas.gridSize st)
  /\
  (forall u u' st,
      Canvas.resetGame u (Canvas.resetGame u' st) = Canvas.resetGame u st)
  /\
  (forall u st,
      Canvas.gridSize st = 20 ->
      inGrid 20 (Canvas.food (Canvas.resetGame u st)) /\
      ~ In (Canvas.food (Canvas.resetGame u st))
           (Canvas.snake (Canvas.resetGame u st))).
Proof.
  split; [|split; [|split]].
  - intros st. repeat split.
  - intros u st. repeat split.
  - intros u u' st. reflexivity.
  - intros u st Hg.
    assert (Hfree : Canvas.freeCells (Canvas.start 20) 20 <> [])
      by (vm_compute; discriminate).
    pose proof (randomFoodPosition_free _ _ u Hfree) as Hin.
    apply freeCells_In in Hin.
    unfold Canvas.resetGame. simpl. rewrite Hg. exact Hin.
Qed.

Lemma reset_is_canonical_witness :
  inGrid 20
    (Canvas.food
       (Canvas.resetGame (mkRandom 1 1) (Canvas.initial (mkRandom 0 0) 0))) /\
  ~ In (Canvas.food
          (Canvas.resetGame (mkRandom 1 1) (Canvas.initial (mkRandom 0 0) 0)))
       (Canvas.snake
          (Canvas.resetGame (mkRandom 1 1) (Canvas.initial (mkRandom 0 0) 0))).
Proof.
  destruct reset_is_canonical as [_ [_ [_ H]]].
  apply (H (mkRandom 1 1) (Canvas.initial (mkRandom 0 0) 0)). reflexivity.
Defined.

(** C2 as the specification words it fails twice: in [App] the state after
    a reset is Running, not Paused; in [Canvas] two resets with different
    draws put the food on different cells, so there is no single initial
    Food. *)
Lemma reset_counterexample :
  App.phaseOf (App.resetGame App.initial) <> Paused /\
  Canvas.food
    (Canvas.resetGame (mkRandom 0 0) (Canvas.initial (mkRandom 0 0) 0)) <>
  Canvas.food
    (Canvas.resetGame (mkRandom 1 1) (Canvas.initial (mkRandom 0 0) 0)).
Proof.
  split.
  - discriminate.
  - vm_compute. discriminate.
Qed.

(** ** C3: two turns inside one tick *)

(** C3 at the failing input.  The snake moves right; inside one tick the
    player presses Up, then Left.  Each press is checked against the pending
    direction, which the first press has already replaced, so the second is
    accepted: the direction the next tick consumes is the opposite of the
    committed one.  In [App] the head goes back from (10,10) to (9,10); in
    [Canvas] it runs into the cell behind it and the game ends. *)
Theorem double_turn_reverses :
  App.direction (App.resetGame App.initial) = dirRight /\
  App.directionRef
    (App.handleKeyPress "ArrowLeft"
       (App.handleKeyPress "ArrowUp" (App.resetGame App.initial)))
  = negate dirRight /\
  (exists st',
      App.gameLoop []
        (App.handleKeyPress "ArrowLeft"
           (App.handleKeyPress "ArrowUp" (App.resetGame App.initial)))
      = Returns st' /\
      App.snake st' = [ {| x := 9; y := 10 |} ] /\
      App.direction st' = negate dirRight)
  /\
  Canvas.dirRef (Canvas.scene (Canvas.mounted (mkRandom 0 0) 0)) = dirRight /\
  (exists w,
      Canvas.run
        [ Canvas.ClickStart; Canvas.KeyDown "ArrowUp";
          Canvas.KeyDown "ArrowLeft" ]
        (Canvas.mounted (mkRandom 0 0) 0)
      = Returns w /\
      Canvas.dirRef (Canvas.scene w) = negate dirRight /\
      Canvas.moveSnake (Canvas.tickScope w) (Canvas.scene w) (mkRandom 0 0)
      = Returns (Canvas.endGame (Canvas.tickScope w) (Canvas.scene w))).
Proof.
  split; [reflexivity|]. split; [reflexivity|]. split.
  - eexists. split; [reflexivity|]. split; reflexivity.
  - split; [reflexivity|].
    eexists. split; [vm_compute; reflexivity|]. split; reflexivity.
Qed.

(** ** C4: after the end of a game *)

Lemma handleKey_running (ekey : string) (st : Canvas.state) :
  ((ekey =? " ") || (ekey =? "Spacebar"))%string = false ->
  Canvas.running (Canvas.handleKey ekey st) = Canvas.running st /\
  Canvas.snake (Canvas.handleKey ekey st) = Canvas.snake st.
Proof.
  intros Hk. unfold Canvas.handleKey. rewrite Hk.
  destruct (Canvas.lookup ekey Canvas.map) as [nd|]; [|split; reflexivity].
  destruct ((x (Canvas.dirRef st) + x nd =? 0)
            && (y (Canvas.dirRef st) + y nd =? 0)); split; reflexivity.
Qed.

Lemma turn_running (dx dy : Z) (st : Canvas.state) :
  Canvas.running (Canvas.turn dx dy st) = Canvas.running st /\
  Canvas.snake (Canvas.turn dx dy st) = Canvas.snake st.
Proof.
  unfold Canvas.turn.
  destruct ((x (Canvas.dirRef st) + dx =? 0)
            && (y (Canvas.dirRef st) + dy =? 0)); split; reflexivity.
Qed.

(** C4, as the code has it.  [App]: once [gameOver] is set, the timer is
    off, a key press does nothing, the mode buttons change the mode only,
    and the one way out is the button that calls [resetGame].  [Canvas] has
    no flag for a finished game: [endGame] only clears [running].  While it
    is clear no tick moves the snake, and the wall button, the direction
    keys, the pad, the speed slider and Clear High leave it clear; but the
    space bar and the Start button set it again, and the frame loop then
    calls [moveSnake] on the snake as the lost game left it. *)
Theorem over_is_left_by_reset_only_in_app :
  (forall st ev st',
      App.gameOver st = true ->
      App.step st ev st' ->
      (forall draws, ev <> App.Tick draws) /\
      (ev <> App.ClickStart ->
       App.phaseOf st' = Over /\ App.snake st' = App.snake st) /\
      (ev = App.ClickStart -> st' = App.resetGame st))
  /\
  (forall w ev w',
      Canvas.running (Canvas.scene w) = false ->
      Canvas.runningRef (Canvas.scene w) = false ->
      Canvas.dispatch ev w = Returns w' ->
      (togglesRunning ev = false ->
       Canvas.running (Canvas.scene w') = false /\
       Canvas.runningRef (Canvas.scene w') = false /\
       ((forall u, ev <> Canvas.ClickReset u) ->
        Canvas.snake (Canvas.scene w') = Canvas.snake (Canvas.scene w))) /\
      (togglesRunning ev = true ->
       Canvas.running (Canvas.scene w') = true /\
       Canvas.runningRef (Canvas.scene w') = true /\
       forall u,
         Canvas.handle (Canvas.Frame u) w'
         = Canvas.moveSnake (Canvas.tickScope w') (Canvas.scene w') u)).
Proof.
  split.
  - intros st ev st' Hover [Hen Hh]. split; [|split].
    + intros draws ->. simpl in Hen. rewrite Hover in Hen.
      rewrite andb_false_r in Hen. discriminate.
    + intros Hne. destruct ev as [draws|ekey| |m]; simpl in Hen, Hh.
      * rewrite Hover, andb_false_r in Hen. discriminate.
      * injection Hh as <-. unfold App.handleKeyPress.
        rewrite Hover, orb_true_r. unfold App.phaseOf. rewrite Hover.
        split; reflexivity.
      * contradiction.
      * injection Hh as <-. unfold App.phaseOf. simpl. rewrite Hover.
        split; reflexivity.
    + intros ->. simpl in Hh. injection Hh as <-. reflexivity.
  - intros w ev w' Hrun Href Hd. unfold Canvas.dispatch in Hd.
    destruct (Canvas.handle ev w) as [st1| |] eqn:Hh; try discriminate.
    injection Hd as <-. split.
    + intros Hnt.
      destruct ev as [u|ekey|b| |u| | |v]; simpl in Hh, Hnt;
        try discriminate Hnt.
      * rewrite Href in Hh. injection Hh as <-. simpl.
        repeat split; try assumption; try reflexivity.
      * injection Hh as <-. simpl.
        destruct (handleKey_running ekey (Canvas.scene w) Hnt) as [Hr Hs].
        rewrite Hr, Hs. repeat split; try assumption; try reflexivity.
      * injection Hh as <-. simpl.
        destruct (turn_running (fst (Canvas.padDelta b))
                    (snd (Canvas.padDelta b)) (Canvas.scene w)) as [Hr Hs].
        rewrite Hr, Hs. repeat split; try assumption; try reflexivity.
      * injection Hh as <-. simpl. split; [reflexivity|].
        split; [reflexivity|].
        intros Hne. exfalso. apply (Hne u). reflexivity.
      * injection Hh as <-. simpl.
        repeat split; try assumption; try reflexivity.
      * injection Hh as <-. simpl.
        repeat split; try assumption; try reflexivity.
      * injection Hh as <-. simpl.
        repeat split; try assumption; try reflexivity.
    + intros Ht.
      assert (Hst1 : st1 = Canvas.setRunning true (Canvas.scene w)).
      { destruct ev as [u|ekey|b| |u| | |v]; simpl in Hh, Ht;
          try discriminate Ht.
        - unfold Canvas.handleKey in Hh. rewrite Ht in Hh.
          injection Hh as <-. rewrite Hrun. reflexivity.
        - injection Hh as <-. unfold Canvas.toggleRunning.
          rewrite Hrun. reflexivity. }
      subst st1. simpl. repeat split.
Qed.

Lemma over_is_left_by_reset_only_in_app_witness :
  App.phaseOf
    (App.setGameMode App.pass_through
       (App.collided
          (appPlaying [ {| x := 19; y := 10 |} ] dirRight
             {| x := 15; y := 15 |} App.walls)))
  = Over.
Proof.
  destruct over_is_left_by_reset_only_in_app as [HA _].
  destruct (HA (App.collided
                  (appPlaying [ {| x := 19; y := 10 |} ] dirRight
                     {| x := 15; y := 15 |} App.walls))
               (App.ClickMode App.pass_through)
               (App.setGameMode App.pass_through
                  (App.collided
                     (appPlaying [ {| x := 19; y := 10 |} ] dirRight
                        {| x := 15; y := 15 |} App.walls))))
    as [_ [H _]].
  - reflexivity.
  - split; reflexivity.
  - apply H. discriminate.
Defined.

(** C4 as the specification words it fails in [Canvas].  The game
    [intoTheWall] ends against the right wall: [endGame] has run, [running]
    is false and the snake lies on (18,10) (19,10).  The space bar then sets
    [running] again although no reset took place, and after a turn upwards
    the next tick moves the snake on to (19,9). *)
Lemma over_counterexample :
  exists w1 w2 w3,
    Canvas.run intoTheWall (Canvas.mounted (mkRandom 0 0) 0) = Returns w1 /\
    Canvas.running (Canvas.scene w1) = false /\
    Canvas.snake (Canvas.scene w1)
    = [ {| x := 18; y := 10 |}; {| x := 19; y := 10 |} ] /\
    Canvas.dispatch (Canvas.KeyDown " ") w1 = Returns w2 /\
    Canvas.running (Canvas.scene w2) = true /\
    Canvas.run [ Canvas.KeyDown "ArrowUp"; Canvas.Frame (mkRandom 0 0) ] w2
    = Returns w3 /\
    Canvas.running (Canvas.scene w3) = true /\
    Canvas.snake (Canvas.scene w3)
    = [ {| x := 19; y := 10 |}; {| x := 19; y := 9 |} ].
Proof.
  eexists. eexists. eexists.
  split; [vm_compute; reflexivity|].
  split; [reflexivity|]. split; [reflexivity|].
  split; [vm_compute; reflexivity|].
  split; [reflexivity|].
  split; [vm_compute; reflexivity|].
  split; reflexivity.
Qed.

(** ** C5: the snake never overlaps itself and is never empty *)

Lemma removelast_In (l : list point) (p : point) :
  In p (removelast l) -> In p l.
Proof.
  induction l as [|a l IH]; simpl; [tauto|].
  destruct l as [|b l]; [simpl; tauto|].
  intros [E|H]; [left; exact E | right; apply IH; exact H].
Qed.

Lemma NoDup_pop (l : list point) : NoDup l -> NoDup (removelast l).
Proof.
  induction 1 as [|a l Hnot Hl IH]; simpl; [constructor|].
  destruct l as [|b l]; [constructor|].
  constructor; [|exact IH].
  intros Hin. apply Hnot. apply removelast_In. exact Hin.
Qed.

Lemma NoDup_push (l : list point) (p : point) :
  NoDup l -> ~ In p l -> NoDup (l ++ [p]).
Proof.
  induction 1 as [|a l Hnot Hl IH]; simpl; intros Hp.
  - constructor; [tauto | constructor].
  - constructor.
    + rewrite in_app_iff. simpl. intros [H|[H|[]]]; [tauto|].
      apply Hp. left. symmetry. exact H.
    + apply IH. tauto.
Qed.

Lemma NoDup_shift (l : list point) : NoDup l -> NoDup (tl l).
Proof. intros H. destruct H; simpl; [constructor | assumption]. Qed.

Lemma pop_length (a b : point) (l : list point) :
  (1 <= List.length (removelast (a :: b :: l)))%nat.
Proof.
  change (removelast (a :: b :: l)) with (a :: removelast (b :: l)).
  simpl. lia.
Qed.

(** One tick of [App] keeps the snake well formed. *)
Lemma gameLoop_wellFormed draws st st' :
  wellFormed (App.snake st) ->
  App.gameLoop draws st = Returns st' ->
  wellFormed (App.snake st').
Proof.
  intros [Hnd Hlen]. unfold App.gameLoop.
  destruct (App.snake st) as [|head body] eqn:Hs; [discriminate|].
  destruct (App.landing st head) as [newHead|].
  - destruct (existsb _ (head :: body)) eqn:Hc.
    + intros E. injection E as <-. simpl. rewrite Hs. split; assumption.
    + apply some_same_not_In in Hc.
      destruct (same newHead (App.food st)).
      * destruct (App.generateFood draws (newHead :: head :: body));
          try discriminate.
        intros E. injection E as <-. simpl. split.
        -- constructor; assumption.
        -- simpl. lia.
      * intros E. injection E as <-.
        change (wellFormed (removelast (newHead :: head :: body))). split.
        -- apply NoDup_pop. constructor; assumption.
        -- apply pop_length.
  - intros E. injection E as <-. simpl. rewrite Hs. split; assumption.
Qed.

(** One tick of [Canvas] keeps the snake well formed, whatever render the
    frame loop belongs to. *)
Lemma moveSnake_wellFormed scope st u st' :
  wellFormed (Canvas.snake st) ->
  Canvas.snakeRef st = Canvas.snake st ->
  Canvas.moveSnake scope st u = Returns st' ->
  wellFormed (Canvas.snake st').
Proof.
  intros [Hnd Hlen] Href. unfold Canvas.moveSnake. rewrite Href.
  destruct (Canvas.headOf (Canvas.snake st)) as [head|]; [|discriminate].
  destruct (Canvas.landing scope head (Canvas.dirRef st)) as [newHead|].
  - destruct (existsb _ (Canvas.snake st)) eqn:Hc.
    + intros E. injection E as <-. simpl. split; assumption.
    + apply some_same_not_In in Hc.
      destruct (same newHead (Canvas.food scope)).
      * intros E. injection E as <-. simpl. split.
        -- apply NoDup_push; assumption.
        -- rewrite length_app. simpl. lia.
      * intros E. injection E as <-. simpl. split.
        -- apply NoDup_shift. apply NoDup_push; assumption.
        -- destruct (Canvas.snake st) as [|a l]; simpl in *; [lia|].
           rewrite length_app. simpl. lia.
  - intros E. injection E as <-. simpl. split; assumption.
Qed.

Lemma handleKeyPress_snake ekey st :
  App.snake (App.handleKeyPress ekey st) = App.snake st.
Proof.
  unfold App.handleKeyPress.
  repeat match goal with
         | |- context [if ?c then _ else _] => destruct c
         end; reflexivity.
Qed.

(** C5: in every reachable state of either component (so in every
    reachable state whose phase is not Over) the snake holds no cell twice
    and has at least one cell; and every handler, the tick, the direction
    keys, the reset and the wall-mode buttons among them, carries a
    well-formed snake to a well-formed snake. *)
Theorem snake_stays_well_formed :
  (forall st, App.reachable st -> wellFormed (App.snake st))
  /\
  (forall st ev st',
      wellFormed (App.snake st) ->
      App.handle ev st = Returns st' ->
      wellFormed (App.snake st'))
  /\
  (forall w, Canvas.reachable w -> wellFormed (Canvas.snake (Canvas.scene w)))
  /\
  (forall w ev w',
      wellFormed (Canvas.snake (Canvas.scene w)) ->
      Canvas.snakeRef (Canvas.scene w) = Canvas.snake (Canvas.scene w) ->
      Canvas.dispatch ev w = Returns w' ->
      wellFormed (Canvas.snake (Canvas.scene w')) /\
      Canvas.snakeRef (Canvas.scene w') = Canvas.snake (Canvas.scene w')).
Proof.
  assert (HA : forall st ev st',
             wellFormed (App.snake st) ->
             App.handle ev st = Returns st' ->
             wellFormed (App.snake st')).
  { intros st ev st' Hwf Hh. destruct ev as [draws|ekey| |m]; simpl in Hh.
    - eapply gameLoop_wellFormed; eassumption.
    - injection Hh as <-. rewrite handleKeyPress_snake. exact Hwf.
    - injection Hh as <-. simpl. split; [|simpl; lia].
      constructor; [simpl; tauto | constructor].
    - injection Hh as <-. exact Hwf. }
  assert (HC : forall w ev w',
             wellFormed (Canvas.snake (Canvas.scene w)) ->
             Canvas.snakeRef (Canvas.scene w) = Canvas.snake (Canvas.scene w) ->
             Canvas.dispatch ev w = Returns w' ->
             wellFormed (Canvas.snake (Canvas.scene w')) /\
             Canvas.snakeRef (Canvas.scene w')
             = Canvas.snake (Canvas.scene w')).
  { intros w ev w' Hwf Href Hd. unfold Canvas.dispatch in Hd.
    destruct (Canvas.handle ev w) as [st1| |] eqn:Hh; try discriminate.
    injection Hd as <-. split; [|reflexivity]. simpl.
    destruct ev as [u|ekey|b| |u| | |v]; simpl in Hh.
    - destruct (Canvas.runningRef (Canvas.scene w)).
      + eapply moveSnake_wellFormed; eassumption.
      + injection Hh as <-. exact Hwf.
    - injection Hh as <-. unfold Canvas.handleKey.
      repeat match goal with
             | |- context [if ?c then _ else _] => destruct c
             | |- context [match ?c with Some _ => _ | None => _ end] =>
                 destruct c
             end; exact Hwf.
    - injection Hh as <-.
      rewrite (proj2 (turn_running _ _ _)). exact Hwf.
    - injection Hh as <-. exact Hwf.
    - injection Hh as <-. simpl. split; [|simpl; lia].
      constructor; [|constructor; [simpl; tauto | constructor]].
      simpl. intros [E|[]]. injection E as E. lia.
    - injection Hh as <-. exact Hwf.
    - injection Hh as <-. exact Hwf.
    - injection Hh as <-. exact Hwf. }
  split; [|split; [exact HA|split; [|exact HC]]].
  - induction 1 as [|st ev st' _ IH [_ Hh]].
    + split; [|simpl; lia]. constructor; [simpl; tauto | constructor].
    + eapply HA; eassumption.
  - assert (Hboth : forall w, Canvas.reachable w ->
               wellFormed (Canvas.snake (Canvas.scene w)) /\
               Canvas.snakeRef (Canvas.scene w)
               = Canvas.snake (Canvas.scene w)).
    { induction 1 as [u stored|w ev w' _ [IHwf IHref] Hd].
      - split; [|reflexivity]. split; [|simpl; lia].
        constructor; [|constructor; [simpl; tauto | constructor]].
        simpl. intros [E|[]]. discriminate E.
      - eapply HC; eassumption. }
    intros w Hw. apply Hboth. exact Hw.
Qed.

Lemma snake_stays_well_formed_witness :
  wellFormed (App.snake (App.resetGame App.initial)) /\
  wellFormed (Canvas.snake (Canvas.scene (Canvas.mounted (mkRandom 0 0) 0))).
Proof.
  destruct snake_stays_well_formed as [HA [_ [HC _]]]. split.
  - apply HA. apply (App.reachable_step App.initial App.ClickStart).
    + apply App.reachable_initial.
    + split; reflexivity.
  - apply HC. apply Canvas.reachable_mounted.
Defined.

(** ** C6: when the food moves, and where to *)

Lemma drawn_inGrid (u : random * random) : inGrid App.GRID_SIZE (App.drawn u).
Proof.
  unfold inGrid, App.drawn. cbn [x y].
  change (Z.to_nat App.GRID_SIZE) with 20%nat.
  assert (Hpos : (0 < 20)%nat) by lia.
  pose proof (floorScaled_lt (fst u) 20 Hpos) as Hx.
  pose proof (floorScaled_lt (snd u) 20 Hpos) as Hy.
  unfold App.GRID_SIZE. lia.
Qed.

(** A cell that [generateFood] returns is on the grid and off the snake. *)
Lemma generateFood_returns draws l f :
  App.generateFood draws l = Returns f -> inGrid App.GRID_SIZE f /\ ~ In f l.
Proof.
  induction draws as [|u rest IH]; simpl; [discriminate|].
  destruct (existsb (fun segment => same segment (App.drawn u)) l) eqn:E.
  - exact IH.
  - intros H. injection H as <-. split; [apply drawn_inGrid|].
    apply some_same_not_In. exact E.
Qed.

Lemma generateFood_never_throws draws l : App.generateFood draws l <> Throws.
Proof.
  induction draws as [|u rest IH]; simpl; [discriminate|].
  destruct (existsb _ l); [exact IH | discriminate].
Qed.

(** [generateFood] returns as soon as one draw falls off the snake. *)
Lemma generateFood_finds draws l :
  (exists u, In u draws /\ ~ In (App.drawn u) l) ->
  exists f, App.generateFood draws l = Returns f.
Proof.
  induction draws as [|u rest IH]; intros [v [Hv Hfree]]; [destruct Hv|].
  simpl. destruct (existsb (fun segment => same segment (App.drawn u)) l) eqn:E.
  - destruct Hv as [->|Hv].
    + apply some_same_In in E. contradiction.
    + apply IH. exists v. split; assumption.
  - eexists. reflexivity.
Qed.

Lemma app_food_rule st head body newHead :
  App.snake st = head :: body ->
  App.landing st head = Some newHead ->
  ~ In (App.food st) (App.snake st) ->
  (newHead <> App.food st ->
   forall draws, exists st',
     App.gameLoop draws st = Returns st' /\ App.food st' = App.food st)
  /\
  (newHead = App.food st ->
   forall draws,
     match App.generateFood draws (newHead :: App.snake st) with
     | Returns f =>
         exists st',
           App.gameLoop draws st = Returns st' /\
           App.snake st' = newHead :: App.snake st /\
           App.food st' = f /\
           inGrid App.GRID_SIZE f /\
           ~ In f (App.snake st') /\
           f <> App.food st
     | Throws => False
     | Spins => App.gameLoop draws st = Spins
     end).
Proof.
  intros Hs Hland Hfood. split.
  - intros Hne draws. unfold App.gameLoop. rewrite Hs, Hland.
    destruct (existsb _ (head :: body)).
    + eexists. split; reflexivity.
    + destruct (same newHead (App.food st)) eqn:E.
      * apply same_spec in E. contradiction.
      * eexists. split; reflexivity.
  - intros -> draws. unfold App.gameLoop. rewrite Hs, Hland.
    rewrite Hs in Hfood. apply some_same_not_In in Hfood. rewrite Hfood.
    rewrite same_refl.
    destruct (App.generateFood draws (App.food st :: head :: body))
      as [f| |] eqn:G.
    + apply generateFood_returns in G. destruct G as [Hg Hout].
      eexists. split; [reflexivity|]. cbn [App.snake App.food].
      split; [reflexivity|]. split; [reflexivity|]. split; [exact Hg|].
      split; [exact Hout|].
      intros ->. apply Hout. left. reflexivity.
    + exact (generateFood_never_throws _ _ G).
    + reflexivity.
Qed.

Lemma canvas_food_rule scope st u head newHead :
  Canvas.headOf (Canvas.snakeRef st) = Some head ->
  Canvas.landing scope head (Canvas.dirRef st) = Some newHead ->
  ~ In (Canvas.food scope) (Canvas.snakeRef st) ->
  (newHead <> Canvas.food scope ->
   exists st',
     Canvas.moveSnake scope st u = Returns st' /\
     Canvas.food st' = Canvas.food st)
  /\
  (newHead = Canvas.food scope ->
   exists st',
     Canvas.moveSnake scope st u = Returns st' /\
     Canvas.snake st' = Canvas.snakeRef st ++ [newHead] /\
     Canvas.food st'
     = Canvas.randomFoodPosition (Canvas.snake st') (Canvas.gridSize scope) u /\
     (Canvas.freeCells (Canvas.snake st') (Canvas.gridSize scope) <> [] ->
      inGrid (Canvas.gridSize scope) (Canvas.food st') /\
      ~ In (Canvas.food st') (Canvas.snake st') /\
      Canvas.food st' <> Canvas.food scope) /\
     (Canvas.freeCells (Canvas.snake st') (Canvas.gridSize scope) = [] ->
      Canvas.food st' = {| x := 0; y := 0 |} /\
      (0 < Canvas.gridSize scope -> In (Canvas.food st') (Canvas.snake st')))).
Proof.
  intros Hh Hland Hfood. split.
  - intros Hne. unfold Canvas.moveSnake. rewrite Hh, Hland.
    destruct (existsb _ (Canvas.snakeRef st)).
    + eexists. split; reflexivity.
    + destruct (same newHead (Canvas.food scope)) eqn:E.
      * apply same_spec in E. contradiction.
      * eexists. split; reflexivity.
  - intros ->. unfold Canvas.moveSnake. rewrite Hh, Hland.
    apply some_same_not_In in Hfood. rewrite Hfood, same_refl.
    eexists. split; [reflexivity|]. simpl.
    split; [reflexivity|]. split; [reflexivity|]. split.
    + intros Hfree.
      pose proof (randomFoodPosition_free _ _ u Hfree) as Hin.
      apply freeCells_In in Hin. destruct Hin as [Hg Hout].
      split; [exact Hg|]. split; [exact Hout|].
      intros E. apply Hout. rewrite E. apply in_or_app. right. left.
      reflexivity.
    + intros Hfull. rewrite (randomFoodPosition_fallback _ _ u Hfull).
      split; [reflexivity|]. intros Hg.
      destruct (existsb (fun s => same s {| x := 0; y := 0 |})
                  (Canvas.snakeRef st ++ [Canvas.food scope])) eqn:E.
      * apply some_same_In in E. exact E.
      * apply some_same_not_In in E. exfalso.
        assert (Hin : In {| x := 0; y := 0 |}
                        (Canvas.freeCells
                           (Canvas.snakeRef st ++ [Canvas.food scope])
                           (Canvas.gridSize scope))).
        { apply freeCells_In. split; [|exact E].
          unfold inGrid. simpl. lia. }
        rewrite Hfull in Hin. destruct Hin.
Qed.

(** In [App] the food is never under the snake. *)
Lemma app_food_off_snake st :
  App.reachable st -> ~ In (App.food st) (App.snake st).
Proof.
  induction 1 as [|st ev st' _ IH [_ Hh]].
  - simpl. intros [E|[]]. discriminate E.
  - destruct ev as [draws|ekey| |m]; simpl in Hh.
    + unfold App.gameLoop in Hh.
      destruct (App.snake st) as [|head body] eqn:Hs; [discriminate|].
      destruct (App.landing st head) as [newHead|].
      * destruct (existsb _ (head :: body)).
        -- injection Hh as <-. simpl. rewrite Hs. exact IH.
        -- destruct (same newHead (App.food st)) eqn:Hf.
           ++ destruct (App.generateFood draws (newHead :: head :: body))
                as [f| |] eqn:G; try discriminate.
              injection Hh as <-. cbn [App.snake App.food].
              apply (generateFood_returns _ _ _ G).
           ++ injection Hh as <-.
              change (~ In (App.food st)
                        (removelast (newHead :: head :: body))).
              intros Hin. apply removelast_In in Hin.
              destruct Hin as [E|Hin]; [|exact (IH Hin)].
              rewrite E, same_refl in Hf. discriminate Hf.
      * injection Hh as <-. simpl. rewrite Hs. exact IH.
    + injection Hh as <-. rewrite handleKeyPress_snake.
      assert (Hfood : App.food (App.handleKeyPress ekey st) = App.food st).
      { unfold App.handleKeyPress.
        repeat match goal with
               | |- context [if ?c then _ else _] => destruct c
               end; reflexivity. }
      rewrite Hfood. exact IH.
    + injection Hh as <-. simpl. intros [E|[]]. discriminate E.
    + injection Hh as <-. exact IH.
Qed.

Lemma landing_upToDate scope st head nd :
  upToDate scope st ->
  Canvas.landing scope head nd = Canvas.landing st head nd.
Proof.
  intros [_ [Hw Hg]]. unfold Canvas.landing. rewrite Hw, Hg. reflexivity.
Qed.

(** C6, as the code has it.  A tick that ends the game, against a wall or
    on a cell of the snake, leaves Food as it was, also when that cell is
    the food cell; a tick that moves the head to a free cell other than the
    food cell leaves Food as it was; a tick that moves the head to a free
    cell that is the food cell grows the snake and draws Food again.  In
    [Canvas] the new cell is on the grid, off the grown snake and differs
    from the old one whenever the grown snake leaves a cell free; when it
    fills the grid the new food is the corner (0,0), a cell of the snake.
    In [App] the cell that [generateFood] returns is on the grid, off the
    grown snake and differs from the old one, and the tick returns when
    [generateFood] does.  For [Canvas] this is the tick of a frame loop that
    is up to date with the state. *)
Theorem food_moves_only_when_eaten :
  (forall st head body,
      App.snake st = head :: body ->
      (forall draws,
          App.landing st head = None \/
          (exists newHead,
              App.landing st head = Some newHead /\
              In newHead (App.snake st)) ->
          App.gameLoop draws st = Returns (App.collided st) /\
          App.food (App.collided st) = App.food st)
      /\
      (forall newHead,
          App.landing st head = Some newHead ->
          ~ In newHead (App.snake st) ->
          (newHead <> App.food st ->
           forall draws, exists st',
             App.gameLoop draws st = Returns st' /\
             App.food st' = App.food st)
          /\
          (newHead = App.food st ->
           forall draws,
             match App.generateFood draws (newHead :: App.snake st) with
             | Returns f =>
                 exists st',
                   App.gameLoop draws st = Returns st' /\
                   App.snake st' = newHead :: App.snake st /\
                   App.food st' = f /\
                   inGrid App.GRID_SIZE f /\
                   ~ In f (App.snake st') /\
                   f <> App.food st
             | Throws => False
             | Spins => App.gameLoop draws st = Spins
             end)))
  /\
  (forall scope st u head,
      Canvas.headOf (Canvas.snakeRef st) = Some head ->
      upToDate scope st ->
      (Canvas.landing st head (Canvas.dirRef st) = None \/
       (exists newHead,
           Canvas.landing st head (Canvas.dirRef st) = Some newHead /\
           In newHead (Canvas.snakeRef st)) ->
       Canvas.moveSnake scope st u = Returns (Canvas.endGame scope st) /\
       Canvas.food (Canvas.endGame scope st) = Canvas.food st)
      /\
      (forall newHead,
          Canvas.landing st head (Canvas.dirRef st) = Some newHead ->
          ~ In newHead (Canvas.snakeRef st) ->
          (newHead <> Canvas.food st ->
           exists st',
             Canvas.moveSnake scope st u = Returns st' /\
             Canvas.food st' = Canvas.food st)
          /\
          (newHead = Canvas.food st ->
           exists st',
             Canvas.moveSnake scope st u = Returns st' /\
             Canvas.snake st' = Canvas.snakeRef st ++ [newHead] /\
             Canvas.food st'
             = Canvas.randomFoodPosition (Canvas.snake st')
                 (Canvas.gridSize st) u /\
             (Canvas.freeCells (Canvas.snake st') (Canvas.gridSize st) <> [] ->
              inGrid (Canvas.gridSize st) (Canvas.food st') /\
              ~ In (Canvas.food st') (Canvas.snake st') /\
              Canvas.food st' <> Canvas.food st) /\
             (Canvas.freeCells (Canvas.snake st') (Canvas.gridSize st) = [] ->
              Canvas.food st' = {| x := 0; y := 0 |} /\
              (0 < Canvas.gridSize st ->
               In (Canvas.food st') (Canvas.snake st')))))).
Proof.
  split.
  - intros st head body Hs. split.
    + intros draws Hhit. split; [|reflexivity].
      unfold App.gameLoop. rewrite Hs.
      destruct Hhit as [->|[newHead [-> Hin]]]; [reflexivity|].
      rewrite Hs in Hin. apply some_same_In in Hin. rewrite Hin.
      reflexivity.
    + intros newHead Hland Hfree. split.
      * intros Hne draws. unfold App.gameLoop. rewrite Hs, Hland.
        rewrite Hs in Hfree. apply some_same_not_In in Hfree.
        rewrite Hfree.
        destruct (same newHead (App.food st)) eqn:E.
        -- apply same_spec in E. contradiction.
        -- eexists. split; reflexivity.
      * intros E. subst newHead.
        exact (proj2 (app_food_rule st head body (App.food st)
                        Hs Hland Hfree) eq_refl).
  - intros scope st u head Hh Hup.
    pose proof (landing_upToDate scope st head (Canvas.dirRef st) Hup)
      as Hsame.
    destruct Hup as [Hf [_ Hg]]. split.
    + intros Hhit. split; [|reflexivity].
      unfold Canvas.moveSnake. rewrite Hh, Hsame.
      destruct Hhit as [->|[newHead [-> Hin]]]; [reflexivity|].
      apply some_same_In in Hin. rewrite Hin. reflexivity.
    + intros newHead Hland Hfree. split.
      * intros Hne. unfold Canvas.moveSnake. rewrite Hh, Hsame, Hland.
        apply some_same_not_In in Hfree. rewrite Hfree, Hf.
        destruct (same newHead (Canvas.food st)) eqn:E.
        -- apply same_spec in E. contradiction.
        -- eexists. split; reflexivity.
      * intros E. subst newHead.
        rewrite <- Hsame in Hland. rewrite <- Hf in Hland, Hfree.
        destruct (proj2 (canvas_food_rule scope st u head
                           (Canvas.food scope) Hh Hland Hfree) eq_refl)
          as [st' H].
        exists st'. rewrite <- Hf, <- Hg. exact H.
Qed.

Lemma food_moves_only_when_eaten_witness :
  (exists st',
      App.gameLoop [ (mkRandom 0 0, mkRandom 0 0) ]
        (appPlaying [ {| x := 14; y := 15 |} ] dirRight {| x := 15; y := 15 |}
           App.walls)
      = Returns st' /\
      App.snake st' = [ {| x := 15; y := 15 |}; {| x := 14; y := 15 |} ] /\
      App.food st' = {| x := 0; y := 0 |} /\
      inGrid App.GRID_SIZE {| x := 0; y := 0 |} /\
      ~ In {| x := 0; y := 0 |} (App.snake st') /\
      {| x := 0; y := 0 |} <> {| x := 15; y := 15 |})
  /\
  (exists st',
      Canvas.moveSnake
        (canvasPlaying (Canvas.start 20) dirUp {| x := 11; y := 10 |} true)
        (canvasPlaying (Canvas.start 20) dirUp {| x := 11; y := 10 |} true)
        (mkRandom 0 0)
      = Returns st' /\
      Canvas.food st'
      = Canvas.food
          (canvasPlaying (Canvas.start 20) dirUp {| x := 11; y := 10 |} true)).
Proof.
  destruct food_moves_only_when_eaten as [HA HC]. split.
  - refine (proj2
              (proj2
                 (HA (appPlaying [ {| x := 14; y := 15 |} ] dirRight
                        {| x := 15; y := 15 |} App.walls)
                     {| x := 14; y := 15 |} [] eq_refl)
                 {| x := 15; y := 15 |} eq_refl _)
              eq_refl [ (mkRandom 0 0, mkRandom 0 0) ]).
    simpl. intros [E|[]]. discriminate E.
  - refine (proj1
              (proj2
                 (HC (canvasPlaying (Canvas.start 20) dirUp
                        {| x := 11; y := 10 |} true)
                     (canvasPlaying (Canvas.start 20) dirUp
                        {| x := 11; y := 10 |} true)
                     (mkRandom 0 0) {| x := 10; y := 10 |} eq_refl _)
                 {| x := 10; y := 9 |} eq_refl _)
              _).
    + repeat split.
    + simpl. intros [E|[E|[]]]; discriminate E.
    + discriminate.
Defined.

(** C6 as the specification words it fails on the last bite in [Canvas]:
    the head moves from (1,19) onto the food at (0,19), the snake then lies
    on every cell of the grid, and the food is put on (0,0), its tail. *)
Lemma food_on_the_snake_counterexample :
  Canvas.headOf (Canvas.snakeRef canvasLastBite) = Some {| x := 1; y := 19 |}
  /\
  Canvas.landing canvasLastBite {| x := 1; y := 19 |}
    (Canvas.dirRef canvasLastBite)
  = Some (Canvas.food canvasLastBite)
  /\
  exists st',
    Canvas.moveSnake canvasLastBite canvasLastBite (mkRandom 0 0)
    = Returns st' /\
    Canvas.snake st' = serpentine 20 /\
    Canvas.food st' = {| x := 0; y := 0 |} /\
    In (Canvas.food st') (Canvas.snake st').
Proof.
  split; [vm_compute; reflexivity|]. split; [vm_compute; reflexivity|].
  eexists. split; [vm_compute; reflexivity|].
  split; [vm_compute; reflexivity|]. split; [reflexivity|].
  apply some_same_In. vm_compute. reflexivity.
Qed.

(** On the full grid the food lies under the tail.  A head that comes round
    to that cell runs into the snake: the tick ends the game and Food stays,
    although the new head is on the food cell. *)
Remark food_under_the_tail_is_not_eaten :
  Canvas.headOf (Canvas.snakeRef canvasFull) = Some {| x := 0; y := 19 |} /\
  Canvas.landing canvasFull {| x := 0; y := 19 |} (Canvas.dirRef canvasFull)
  = Some (Canvas.food canvasFull) /\
  Canvas.moveSnake canvasFull canvasFull (mkRandom 0 0)
  = Returns (Canvas.endGame canvasFull canvasFull) /\
  Canvas.food (Canvas.endGame canvasFull canvasFull) = Canvas.food canvasFull.
Proof.
  split; [vm_compute; reflexivity|]. split; [vm_compute; reflexivity|].
  split; [vm_compute; reflexivity | reflexivity].
Qed.

(** ** C7: solid walls *)

(** What the two ticks do with solid walls: when the wall mode that the
    tick reads is solid and the cell the head moves to is off the grid, the
    tick ends the game and leaves Snake, Score and Food as they were.  [App]
    sets [gameOver]; [Canvas] calls [endGame], which clears [running].  The
    wall mode that a tick of [Canvas] reads is the [wrapWalls] of the render
    of its frame loop. *)
Theorem solid_wall_ends_the_game :
  (forall draws st head body,
      App.snake st = head :: body ->
      App.gameMode st = App.walls ->
      outside App.GRID_SIZE (plus head (App.directionRef st)) = true ->
      App.gameLoop draws st = Returns (App.collided st) /\
      App.phaseOf (App.collided st) = Over /\
      App.snake (App.collided st) = App.snake st /\
      App.score (App.collided st) = App.score st /\
      App.food (App.collided st) = App.food st)
  /\
  (forall scope st u head,
      Canvas.headOf (Canvas.snakeRef st) = Some head ->
      Canvas.wrapWalls scope = false ->
      outside (Canvas.gridSize scope) (plus head (Canvas.dirRef st)) = true ->
      Canvas.moveSnake scope st u = Returns (Canvas.endGame scope st) /\
      Canvas.running (Canvas.endGame scope st) = false /\
      Canvas.snake (Canvas.endGame scope st) = Canvas.snake st /\
      Canvas.score (Canvas.endGame scope st) = Canvas.score st /\
      Canvas.food (Canvas.endGame scope st) = Canvas.food st).
Proof.
  split.
  - intros draws st head body Hs Hm Hout.
    split; [|repeat split].
    unfold App.gameLoop, App.landing. rewrite Hs, Hm, Hout. reflexivity.
  - intros scope st u head Hh Hw Hout.
    split; [|repeat split].
    unfold Canvas.moveSnake, Canvas.landing. rewrite Hh, Hw, Hout.
    reflexivity.
Qed.

(** The scenario of the specification: head on (19,10), direction (1,0),
    20x20 grid, solid walls. *)
Lemma solid_wall_ends_the_game_witness :
  (App.gameLoop [] (appAtEdge App.walls)
   = Returns (App.collided (appAtEdge App.walls)) /\
   App.snake (App.collided (appAtEdge App.walls))
   = [ {| x := 19; y := 10 |}; {| x := 18; y := 10 |} ])
  /\
  (Canvas.moveSnake (canvasAtEdge false) (canvasAtEdge false) (mkRandom 0 0)
   = Returns (Canvas.endGame (canvasAtEdge false) (canvasAtEdge false)) /\
   Canvas.snake (Canvas.endGame (canvasAtEdge false) (canvasAtEdge false))
   = [ {| x := 18; y := 10 |}; {| x := 19; y := 10 |} ]).
Proof.
  destruct solid_wall_ends_the_game as [HA HC]. split.
  - destruct (HA [] (appAtEdge App.walls)
                {| x := 19; y := 10 |} [ {| x := 18; y := 10 |} ]
                eq_refl eq_refl eq_refl) as [H1 [_ [H2 _]]].
    split; [exact H1 | exact H2].
  - destruct (HC (canvasAtEdge false) (canvasAtEdge false)
                (mkRandom 0 0) {| x := 19; y := 10 |}
                eq_refl eq_refl eq_refl) as [H1 [_ [H2 _]]].
    split; [exact H1 | exact H2].
Defined.

(** The wall mode that a tick of [Canvas] applies is the one of the render
    its frame loop belongs to.  With the Walls button pressed before the
    start and the speed untouched, the loop is still that of the first
    render: the state shows solid walls, yet the tenth tick carries the head
    from (19,10) round to (0,10).  In [intoTheWall] the slider renews the
    loop and the same tick ends the game. *)
Remark wall_mode_of_the_frame_loop :
  exists w,
    Canvas.run
      ([ Canvas.ClickWalls; Canvas.ClickStart ]
       ++ repeat (Canvas.Frame (mkRandom 0 0)) 10)
      (Canvas.mounted (mkRandom 0 0) 0)
    = Returns w /\
    Canvas.wrapWalls (Canvas.scene w) = false /\
    Canvas.wrapWalls (Canvas.tickScope w) = true /\
    Canvas.running (Canvas.scene w) = true /\
    Canvas.snake (Canvas.scene w)
    = [ {| x := 19; y := 10 |}; {| x := 0; y := 10 |} ].
Proof.
  eexists. split; [vm_compute; reflexivity|]. repeat split.
Qed.

(** C7 at the failing input.  In [Canvas] the player chooses solid walls
    before the start and leaves the speed alone; nine ticks take the head
    from (10,10) to (19,10).  The state says solid walls and the cell the
    head moves to, (20,10), is off the grid; but the frame loop is that of
    the first render, where the walls wrap, so the tenth tick carries the
    head round to (0,10), the snake moves and the game goes on.  [App] on
    the same position ends the game and keeps the snake. *)
Theorem solid_walls_do_not_reach_the_frame_loop :
  (exists w w',
      Canvas.run toTheWall (Canvas.mounted (mkRandom 0 0) 0) = Returns w /\
      Canvas.wrapWalls (Canvas.scene w) = false /\
      Canvas.runningRef (Canvas.scene w) = true /\
      Canvas.snakeRef (Canvas.scene w)
      = [ {| x := 18; y := 10 |}; {| x := 19; y := 10 |} ] /\
      Canvas.dirRef (Canvas.scene w) = dirRight /\
      outside (Canvas.gridSize (Canvas.scene w))
        (plus {| x := 19; y := 10 |} (Canvas.dirRef (Canvas.scene w)))
      = true /\
      Canvas.dispatch (Canvas.Frame (mkRandom 0 0)) w = Returns w' /\
      Canvas.running (Canvas.scene w') = true /\
      Canvas.snake (Canvas.scene w')
      = [ {| x := 19; y := 10 |}; {| x := 0; y := 10 |} ])
  /\
  App.gameLoop [] (appAtEdge App.walls)
  = Returns (App.collided (appAtEdge App.walls)).
Proof.
  split; [|reflexivity].
  eexists. eexists.
  split; [vm_compute; reflexivity|].
  split; [reflexivity|]. split; [reflexivity|]. split; [reflexivity|].
  split; [reflexivity|]. split; [reflexivity|].
  split; [vm_compute; reflexivity|].
  split; reflexivity.
Qed.

(** ** C8: wrapping walls *)

(** One step off the range [0 .. g-1] is brought back modulo [g]. *)
Lemma wrapAxis_mod (g v : Z) : 0 < g -> -1 <= v <= g -> wrapAxis g v = v mod g.
Proof.
  intros Hg Hv. unfold wrapAxis.
  destruct (v <? 0) eqn:Hneg.
  - apply Z.ltb_lt in Hneg. assert (Hv1 : v = -1) by lia. subst v.
    rewrite Z.geb_leb. destruct (g <=? g - 1) eqn:E.
    + apply Z.leb_le in E. lia.
    + apply (Z.mod_unique (-1) g (-1) (g - 1)); lia.
  - apply Z.ltb_ge in Hneg. rewrite Z.geb_leb.
    destruct (g <=? v) eqn:E.
    + apply Z.leb_le in E. assert (Hvg : v = g) by lia. subst v.
      symmetry. apply Z_mod_same_full.
    + apply Z.leb_gt in E. symmetry. apply Z.mod_small. lia.
Qed.

Lemma wrap_mod (g : Z) (head d : point) :
  inGrid g head -> unitDirection d ->
  wrap g (plus head d)
  = {| x := (x head + x d) mod g; y := (y head + y d) mod g |}.
Proof.
  intros [Hx Hy] Hd. unfold wrap, plus. cbn [x y].
  assert (Hdx : -1 <= x d <= 1 /\ -1 <= y d <= 1).
  { destruct Hd as [ -> | [ -> | [ -> | -> ] ] ]; simpl; lia. }
  rewrite !wrapAxis_mod by lia. reflexivity.
Qed.

Lemma headOf_shift_push (l : list point) (p : point) :
  l <> [] -> Canvas.headOf (tl (l ++ [p])) = Some p.
Proof.
  destruct l as [|a l]; [contradiction|]. intros _. simpl.
  apply headOf_push.
Qed.

(** What the two ticks do when the wall mode they read is wrapping. *)
Lemma wrap_rule :
  (forall st head body d,
      App.snake st = head :: body ->
      App.gameMode st = App.pass_through ->
      App.phaseOf st = Running ->
      App.directionRef st = d ->
      unitDirection d ->
      inGrid App.GRID_SIZE head ->
      App.landing st head
      = Some {| x := (x head + x d) mod App.GRID_SIZE;
                y := (y head + y d) mod App.GRID_SIZE |} /\
      (~ In {| x := (x head + x d) mod App.GRID_SIZE;
               y := (y head + y d) mod App.GRID_SIZE |} (App.snake st) ->
       forall draws,
         (exists st',
             App.gameLoop draws st = Returns st' /\
             hd_error (App.snake st')
             = Some {| x := (x head + x d) mod App.GRID_SIZE;
                       y := (y head + y d) mod App.GRID_SIZE |} /\
             App.phaseOf st' = Running)
         \/
         (App.gameLoop draws st = Spins /\
          App.generateFood draws (App.food st :: App.snake st) = Spins /\
          App.food st
          = {| x := (x head + x d) mod App.GRID_SIZE;
               y := (y head + y d) mod App.GRID_SIZE |})) /\
      (In {| x := (x head + x d) mod App.GRID_SIZE;
             y := (y head + y d) mod App.GRID_SIZE |} (App.snake st) ->
       forall draws, App.gameLoop draws st = Returns (App.collided st)))
  /\
  (forall scope st u head d,
      Canvas.headOf (Canvas.snakeRef st) = Some head ->
      Canvas.wrapWalls scope = true ->
      Canvas.dirRef st = d ->
      unitDirection d ->
      inGrid (Canvas.gridSize scope) head ->
      Canvas.landing scope head d
      = Some {| x := (x head + x d) mod Canvas.gridSize scope;
                y := (y head + y d) mod Canvas.gridSize scope |} /\
      (~ In {| x := (x head + x d) mod Canvas.gridSize scope;
               y := (y head + y d) mod Canvas.gridSize scope |}
            (Canvas.snakeRef st) ->
       exists st',
         Canvas.moveSnake scope st u = Returns st' /\
         Canvas.headOf (Canvas.snake st')
         = Some {| x := (x head + x d) mod Canvas.gridSize scope;
                   y := (y head + y d) mod Canvas.gridSize scope |} /\
         Canvas.running st' = Canvas.running st) /\
      (In {| x := (x head + x d) mod Canvas.gridSize scope;
             y := (y head + y d) mod Canvas.gridSize scope |}
          (Canvas.snakeRef st) ->
       Canvas.moveSnake scope st u = Returns (Canvas.endGame scope st))).
Proof.
  split.
  - intros st head body d Hs Hm Hp Hd Hu Hg.
    assert (Hland : App.landing st head
                    = Some {| x := (x head + x d) mod App.GRID_SIZE;
                              y := (y head + y d) mod App.GRID_SIZE |}).
    { unfold App.landing. rewrite Hm, Hd. f_equal.
      apply wrap_mod; assumption. }
    split; [exact Hland|].
    set (cell := {| x := (x head + x d) mod App.GRID_SIZE;
                    y := (y head + y d) mod App.GRID_SIZE |}) in *.
    assert (Hflags : App.gameOver st = false /\ App.isPlaying st = true).
    { unfold App.phaseOf in Hp.
      destruct (App.gameOver st); [discriminate|].
      destruct (App.isPlaying st); [split; reflexivity | discriminate]. }
    destruct Hflags as [Hover Hplay].
    split.
    + intros Hfree draws. unfold App.gameLoop. rewrite Hs, Hland.
      rewrite Hs in Hfree. apply some_same_not_In in Hfree. rewrite Hfree.
      destruct (same cell (App.food st)) eqn:Hf.
      * apply same_spec in Hf. rewrite <- Hf.
        destruct (App.generateFood draws (cell :: head :: body))
          as [f| |] eqn:G.
        -- left. eexists. split; [reflexivity|]. split; [reflexivity|].
           unfold App.phaseOf. simpl. rewrite Hover, Hplay. reflexivity.
        -- exfalso. exact (generateFood_never_throws _ _ G).
        -- right. split; [reflexivity|]. split; reflexivity.
      * left. eexists. split; [reflexivity|]. split; [reflexivity|].
        unfold App.phaseOf. simpl. rewrite Hover, Hplay. reflexivity.
    + intros Hin draws. unfold App.gameLoop. rewrite Hs, Hland.
      rewrite Hs in Hin. apply some_same_In in Hin. rewrite Hin.
      reflexivity.
  - intros scope st u head d Hh Hw Hd Hu Hg.
    assert (Hland : Canvas.landing scope head d
                    = Some {| x := (x head + x d) mod Canvas.gridSize scope;
                              y := (y head + y d) mod Canvas.gridSize scope |}).
    { unfold Canvas.landing. rewrite Hw. f_equal.
      apply wrap_mod; assumption. }
    split; [exact Hland|].
    set (cell := {| x := (x head + x d) mod Canvas.gridSize scope;
                    y := (y head + y d) mod Canvas.gridSize scope |}) in *.
    split.
    + intros Hfree. unfold Canvas.moveSnake. rewrite Hh, Hd, Hland.
      apply some_same_not_In in Hfree. rewrite Hfree.
      destruct (same cell (Canvas.food scope)).
      * eexists. split; [reflexivity|]. simpl. split; [|reflexivity].
        apply headOf_push.
      * eexists. split; [reflexivity|]. simpl. split; [|reflexivity].
        apply headOf_shift_push. intros E. rewrite E in Hh. discriminate Hh.
    + intros Hin. unfold Canvas.moveSnake. rewrite Hh, Hd, Hland.
      apply some_same_In in Hin. rewrite Hin. reflexivity.
Qed.

(** C8, as the code has it: in wrap mode, for a head on the grid and a unit
    direction, the cell the head moves to has each coordinate taken modulo
    the grid size.  If that cell is free of the snake the tick puts the head
    there and the game goes on; in [App], when the cell holds the food, it
    does so provided the food loop returns, and spins with it otherwise.  If
    the snake lies on the cell, the tick ends the game as a self-collision.
    For [Canvas] wrap mode is the [wrapWalls] of the state, and the tick is
    that of a frame loop that is up to date with the state. *)
Theorem wrap_brings_the_head_round :
  (forall st head body d,
      App.snake st = head :: body ->
      App.gameMode st = App.pass_through ->
      App.phaseOf st = Running ->
      App.directionRef st = d ->
      unitDirection d ->
      inGrid App.GRID_SIZE head ->
      App.landing st head
      = Some {| x := (x head + x d) mod App.GRID_SIZE;
                y := (y head + y d) mod App.GRID_SIZE |} /\
      (~ In {| x := (x head + x d) mod App.GRID_SIZE;
               y := (y head + y d) mod App.GRID_SIZE |} (App.snake st) ->
       forall draws,
         (exists st',
             App.gameLoop draws st = Returns st' /\
             hd_error (App.snake st')
             = Some {| x := (x head + x d) mod App.GRID_SIZE;
                       y := (y head + y d) mod App.GRID_SIZE |} /\
             App.phaseOf st' = Running)
         \/
         (App.gameLoop draws st = Spins /\
          App.generateFood draws (App.food st :: App.snake st) = Spins /\
          App.food st
          = {| x := (x head + x d) mod App.GRID_SIZE;
               y := (y head + y d) mod App.GRID_SIZE |})) /\
      (In {| x := (x head + x d) mod App.GRID_SIZE;
             y := (y head + y d) mod App.GRID_SIZE |} (App.snake st) ->
       forall draws, App.gameLoop draws st = Returns (App.collided st)))
  /\
  (forall scope st u head d,
      Canvas.headOf (Canvas.snakeRef st) = Some head ->
      Canvas.wrapWalls st = true ->
      upToDate scope st ->
      Canvas.dirRef st = d ->
      unitDirection d ->
      inGrid (Canvas.gridSize st) head ->
      Canvas.landing st head d
      = Some {| x := (x head + x d) mod Canvas.gridSize st;
                y := (y head + y d) mod Canvas.gridSize st |} /\
      (~ In {| x := (x head + x d) mod Canvas.gridSize st;
               y := (y head + y d) mod Canvas.gridSize st |}
            (Canvas.snakeRef st) ->
       exists st',
         Canvas.moveSnake scope st u = Returns st' /\
         Canvas.headOf (Canvas.snake st')
         = Some {| x := (x head + x d) mod Canvas.gridSize st;
                   y := (y head + y d) mod Canvas.gridSize st |} /\
         Canvas.running st' = Canvas.running st) /\
      (In {| x := (x head + x d) mod Canvas.gridSize st;
             y := (y head + y d) mod Canvas.gridSize st |}
          (Canvas.snakeRef st) ->
       Canvas.moveSnake scope st u = Returns (Canvas.endGame scope st))).
Proof.
  destruct wrap_rule as [HA HC]. split; [exact HA|].
  intros scope st u head d Hh Hw Hup Hd Hu Hg.
  pose proof (landing_upToDate scope st head d Hup) as Hsame.
  destruct Hup as [_ [Hww Hgg]].
  rewrite <- Hsame, <- Hgg. apply HC; try assumption.
  - rewrite Hww. exact Hw.
  - rewrite Hgg. exact Hg.
Qed.

(** The scenario of the specification: head on (19,10), direction (1,0),
    20x20 grid, wrapping walls; the head comes round to (0,10). *)
Lemma wrap_brings_the_head_round_witness :
  App.landing (appAtEdge App.pass_through) {| x := 19; y := 10 |}
  = Some {| x := 0; y := 10 |}
  /\
  (exists st',
      Canvas.moveSnake (canvasAtEdge true) (canvasAtEdge true) (mkRandom 0 0)
      = Returns st' /\
      Canvas.headOf (Canvas.snake st') = Some {| x := 0; y := 10 |} /\
      Canvas.running st' = true).
Proof.
  destruct wrap_brings_the_head_round as [HA HC].
  assert (Hu : unitDirection dirRight) by (do 3 right; reflexivity).
  assert (Hg : inGrid 20 {| x := 19; y := 10 |})
    by (unfold inGrid; simpl; lia).
  split.
  - exact (proj1 (HA (appAtEdge App.pass_through) {| x := 19; y := 10 |}
                    [ {| x := 18; y := 10 |} ] dirRight
                    eq_refl eq_refl eq_refl eq_refl Hu Hg)).
  - assert (Hup : upToDate (canvasAtEdge true) (canvasAtEdge true))
      by (repeat split).
    destruct (HC (canvasAtEdge true) (canvasAtEdge true) (mkRandom 0 0)
                {| x := 19; y := 10 |} dirRight eq_refl eq_refl Hup eq_refl
                Hu Hg)
      as [_ [H _]].
    apply H. simpl. intros [E|[E|[]]]; discriminate E.
Defined.

(** C8 as the specification words it fails when the snake lies along the
    whole of row 10 with its head on (19,10): in wrap mode the head comes
    round to (0,10), a cell of the body next to the tail, and the tick ends
    the game. *)
Lemma wrap_counterexample :
  App.phaseOf appAlongRow = Running
  /\
  hd_error (App.snake appAlongRow) = Some {| x := 19; y := 10 |}
  /\
  App.landing appAlongRow {| x := 19; y := 10 |}
  = Some {| x := 0; y := 10 |}
  /\
  In {| x := 0; y := 10 |} (removelast (App.snake appAlongRow))
  /\
  ~ exists draws st',
      App.gameLoop draws appAlongRow = Returns st' /\
      App.phaseOf st' = Running.
Proof.
  split; [reflexivity|]. split; [reflexivity|]. split; [reflexivity|].
  split; [apply some_same_In; reflexivity|].
  intros [draws [st' [E Hp]]].
  change (App.gameLoop draws appAlongRow)
    with (Returns (App.collided appAlongRow)) in E.
  injection E as <-. discriminate Hp.
Qed.

(** ** C9: one request to reverse *)

Lemma lookup_not_space (ekey : string) (nd : point) :
  Canvas.lookup ekey Canvas.map = Some nd ->
  ((ekey =? " ") || (ekey =? "Spacebar"))%string = false.
Proof.
  unfold Canvas.map, Canvas.lookup.
  repeat match goal with
         | |- context [(?k =? ekey)%string] =>
             let E := fresh "E" in
             destruct (k =? ekey)%string eqn:E;
             [apply String.eqb_eq in E; subst ekey; intros _; reflexivity|]
         end.
  discriminate.
Qed.

Ltac settle_key Hreq :=
  match goal with
  | B : (_ || _)%bool = true |- _ =>
      apply orb_true_iff in B; destruct B as [B|B];
      apply String.eqb_eq in B; subst;
      solve [ discriminate Hreq | reflexivity ]
  end.

(** C9: when the committed direction is [d] and nothing else is pending, a
    request for [-d] changes nothing at all: [App] through any key that asks
    for [-d], [Canvas] through the keyboard and through the on-screen pad. *)
Theorem reversal_is_ignored :
  (forall st ekey d,
      App.direction st = d ->
      App.directionRef st = d ->
      unitDirection d ->
      appRequest (toLowerCase ekey) = Some (negate d) ->
      App.handleKeyPress ekey st = st)
  /\
  (forall st ekey nd d,
      Canvas.direction st = d ->
      Canvas.dirRef st = d ->
      Canvas.lookup ekey Canvas.map = Some nd ->
      nd = negate d ->
      Canvas.handleKey ekey st = st)
  /\
  (forall st dx dy d,
      Canvas.direction st = d ->
      Canvas.dirRef st = d ->
      {| x := dx; y := dy |} = negate d ->
      Canvas.turn dx dy st = st).
Proof.
  split; [|split].
  - intros st ekey d _ Href Hu Hreq.
    unfold App.handleKeyPress.
    destruct (negb (App.isPlaying st) || App.gameOver st); [reflexivity|].
    cbv zeta. rewrite Href. clear Href.
    revert Hreq. generalize (toLowerCase ekey). intros key Hreq.
    unfold appRequest in Hreq.
    destruct Hu as [ -> | [ -> | [ -> | -> ] ] ];
      repeat match type of Hreq with
             | (if ?c then _ else _) = _ => destruct c eqn:?
             end;
      try discriminate Hreq; cbv in Hreq; try discriminate Hreq;
      settle_key Hreq.
  - intros st ekey nd d _ Href Hl ->.
    unfold Canvas.handleKey.
    rewrite (lookup_not_space _ _ Hl), Hl, Href. cbn [negate x y].
    rewrite !Z.add_opp_diag_r. reflexivity.
  - intros st dx dy d _ Href E. injection E as -> ->.
    unfold Canvas.turn. rewrite Href, !Z.add_opp_diag_r. reflexivity.
Qed.

Lemma reversal_is_ignored_witness :
  App.handleKeyPress "ArrowLeft" (App.resetGame App.initial)
  = App.resetGame App.initial
  /\
  Canvas.handleKey "a" (Canvas.initial (mkRandom 0 0) 0)
  = Canvas.initial (mkRandom 0 0) 0
  /\
  Canvas.turn (-1) 0 (Canvas.initial (mkRandom 0 0) 0)
  = Canvas.initial (mkRandom 0 0) 0.
Proof.
  destruct reversal_is_ignored as [HA [HK HT]]. split; [|split].
  - apply (HA (App.resetGame App.initial) "ArrowLeft"%string dirRight);
      try reflexivity.
    do 3 right. reflexivity.
  - apply (HK (Canvas.initial (mkRandom 0 0) 0) "a"%string dirLeft dirRight);
      reflexivity.
  - apply (HT (Canvas.initial (mkRandom 0 0) 0) (-1) 0 dirRight); reflexivity.
Defined.

(** ** C10: food on a full grid *)

Lemma fillsGrid_spec (g : Z) (body : list point) :
  fillsGrid g body = true -> forall c, inGrid g c -> In c body.
Proof.
  unfold fillsGrid. rewrite forallb_forall. intros H c Hc.
  apply some_same_In. apply H. apply cells_inGrid. exact Hc.
Qed.

(** On a snake that fills the grid the loop of [generateFood] rejects every
    draw. *)
Lemma generateFood_spins draws body :
  fillsGrid App.GRID_SIZE body = true ->
  App.generateFood draws body = Spins.
Proof.
  intros Hfull. induction draws as [|u rest IH]; simpl; [reflexivity|].
  assert (Hin : In (App.drawn u) body).
  { apply (fillsGrid_spec _ _ Hfull). apply drawn_inGrid. }
  apply some_same_In in Hin. rewrite Hin. exact IH.
Qed.

(** A tick of [Canvas] on a snake with a head always returns: the food is
    chosen from a list, not by a loop. *)
Lemma moveSnake_returns scope st u head :
  Canvas.headOf (Canvas.snakeRef st) = Some head ->
  exists st', Canvas.moveSnake scope st u = Returns st'.
Proof.
  intros Hh. unfold Canvas.moveSnake. rewrite Hh.
  destruct (Canvas.landing scope head (Canvas.dirRef st)) as [newHead|];
    [|eexists; reflexivity].
  destruct (existsb _ (Canvas.snakeRef st)); [eexists; reflexivity|].
  destruct (same newHead (Canvas.food scope)); eexists; reflexivity.
Qed.

(** A tick of [App] on a snake with a head returns as soon as one of the
    draws falls off the grown snake. *)
Lemma gameLoop_returns draws st head body :
  App.snake st = head :: body ->
  (forall newHead,
      exists u, In u draws /\ ~ In (App.drawn u) (newHead :: App.snake st)) ->
  exists st', App.gameLoop draws st = Returns st'.
Proof.
  intros Hs Hdraw. unfold App.gameLoop. rewrite Hs.
  destruct (App.landing st head) as [newHead|]; [|eexists; reflexivity].
  destruct (existsb _ (head :: body)); [eexists; reflexivity|].
  destruct (same newHead (App.food st)); [|eexists; reflexivity].
  destruct (generateFood_finds draws (newHead :: head :: body)) as [f Hf].
  - rewrite <- Hs. apply Hdraw.
  - rewrite Hf. eexists. reflexivity.
Qed.

(** C10 at the failing input, the last bite.  In [App] the head takes the
    food on the last free cell, the grown snake fills the grid, and
    [generateFood] rejects every draw: whatever the random values, the loop
    and with it the tick never return.  [Canvas] on the same position
    returns: its list of free cells is empty and the food is put on the
    corner (0,0). *)
Theorem food_loop_on_a_full_grid :
  (forall draws,
      App.generateFood draws (App.food appLastBite :: App.snake appLastBite)
      = Spins)
  /\
  (forall draws, App.gameLoop draws appLastBite = Spins)
  /\
  (forall u,
      Canvas.randomFoodPosition
        (Canvas.snakeRef canvasLastBite ++ [Canvas.food canvasLastBite]) 20 u
      = {| x := 0; y := 0 |})
  /\
  (forall u,
      exists st',
        Canvas.moveSnake canvasLastBite canvasLastBite u = Returns st' /\
        Canvas.food st' = {| x := 0; y := 0 |}).
Proof.
  assert (Hfull : fillsGrid App.GRID_SIZE
                    (App.food appLastBite :: App.snake appLastBite) = true)
    by (vm_compute; reflexivity).
  assert (Hspin : forall draws,
             App.generateFood draws
               (App.food appLastBite :: App.snake appLastBite) = Spins).
  { intros draws. apply generateFood_spins. exact Hfull. }
  assert (Hnone : Canvas.freeCells
                    (Canvas.snakeRef canvasLastBite
                     ++ [Canvas.food canvasLastBite]) 20 = [])
    by (vm_compute; reflexivity).
  split; [exact Hspin|]. split; [|split].
  - intros draws.
    assert (Hs : App.snake appLastBite
                 = {| x := 1; y := 19 |} :: tl (App.snake appLastBite))
      by (vm_compute; reflexivity).
    assert (Hland : App.landing appLastBite {| x := 1; y := 19 |}
                    = Some (App.food appLastBite))
      by (vm_compute; reflexivity).
    assert (Hout : ~ In (App.food appLastBite) (App.snake appLastBite)).
    { apply some_same_not_In. vm_compute. reflexivity. }
    pose proof (proj2 (app_food_rule _ _ _ _ Hs Hland Hout) eq_refl draws)
      as H.
    rewrite (Hspin draws) in H. exact H.
  - intros u. apply randomFoodPosition_fallback. exact Hnone.
  - intros u.
    assert (Hh : Canvas.headOf (Canvas.snakeRef canvasLastBite)
                 = Some {| x := 1; y := 19 |})
      by (vm_compute; reflexivity).
    assert (Hland : Canvas.landing canvasLastBite {| x := 1; y := 19 |}
                      (Canvas.dirRef canvasLastBite)
                    = Some (Canvas.food canvasLastBite))
      by (vm_compute; reflexivity).
    assert (Hout : ~ In (Canvas.food canvasLastBite)
                        (Canvas.snakeRef canvasLastBite)).
    { apply some_same_not_In. vm_compute. reflexivity. }
    destruct (proj2 (canvas_food_rule canvasLastBite canvasLastBite u
                       _ _ Hh Hland Hout) eq_refl)
      as [st' [Hm [Hsn [_ [_ Hfb]]]]].
    exists st'. split; [exact Hm|].
    apply Hfb. rewrite Hsn. exact Hnone.
Qed.

(** * Further properties of the two components *)

(** ** What every reachable state of [App] looks like *)

Lemma outside_false_inGrid (g : Z) (p : point) :
  outside g p = false <-> inGrid g p.
Proof.
  unfold outside, inGrid. rewrite !orb_false_iff, !Z.ltb_ge, !Z.geb_leb.
  rewrite !Z.leb_gt. tauto.
Qed.

Lemma wrap_inGrid (g : Z) (head d : point) :
  inGrid g head -> unitDirection d -> inGrid g (wrap g (plus head d)).
Proof.
  intros Hh Hd. rewrite (wrap_mod g head d Hh Hd).
  destruct Hh as [Hx Hy]. unfold inGrid. cbn [x y].
  split; apply Z.mod_pos_bound; lia.
Qed.

Lemma linked_pop R (l : list point) : linked R l -> linked R (removelast l).
Proof.
  induction l as [|a l IH]; [trivial|].
  destruct l as [|b l]; [trivial|].
  intros [Hab Hl]. specialize (IH Hl).
  change (removelast (a :: b :: l)) with (a :: removelast (b :: l)).
  destruct l as [|c l]; [exact I|].
  change (removelast (b :: c :: l)) with (b :: removelast (c :: l)) in *.
  split; assumption.
Qed.

Lemma Forall_pop (P : point -> Prop) (l : list point) :
  Forall P l -> Forall P (removelast l).
Proof.
  intros H. apply Forall_forall. intros p Hp.
  apply removelast_In in Hp. revert p Hp. apply Forall_forall. exact H.
Qed.

Lemma pop_cons_length (a : point) (l : list point) :
  l <> [] -> List.length (removelast (a :: l)) = List.length l.
Proof.
  intros Hne.
  destruct (exists_last Hne) as [l' [z ->]].
  change (a :: l' ++ [z]) with ((a :: l') ++ [z]).
  rewrite removelast_last, length_app. simpl. lia.
Qed.

(** Where the head of [App] lands, if it lands. *)
Lemma app_landing_spec st head newHead :
  unitDirection (App.directionRef st) ->
  inGrid App.GRID_SIZE head ->
  App.landing st head = Some newHead ->
  inGrid App.GRID_SIZE newHead /\ near App.GRID_SIZE newHead head.
Proof.
  intros Hu Hh. unfold App.landing.
  destruct (App.gameMode st).
  - destruct (outside App.GRID_SIZE (plus head (App.directionRef st))) eqn:E;
      [discriminate|].
    intros H. injection H as <-. split.
    + apply outside_false_inGrid. exact E.
    + exists (App.directionRef st). split; [exact Hu | left; reflexivity].
  - intros H. injection H as <-. split.
    + apply wrap_inGrid; assumption.
    + exists (App.directionRef st). split; [exact Hu | right; reflexivity].
Qed.

(** What a key press of [App] can do: nothing, or, in a game under way,
    replace the pending direction by a unit direction at a right angle to
    it. *)
Lemma handleKeyPress_cases ekey st :
  App.handleKeyPress ekey st = st \/
  exists d,
    unitDirection d /\ dot d (App.directionRef st) = 0 /\
    App.isPlaying st = true /\ App.gameOver st = false /\
    App.handleKeyPress ekey st = App.setDirectionRef d st.
Proof.
  unfold App.handleKeyPress.
  destruct (App.isPlaying st) eqn:Hp; [|left; reflexivity].
  destruct (App.gameOver st) eqn:Ho; [left; reflexivity|].
  cbn [negb orb]. cbv zeta.
  destruct (y (App.directionRef st) =? 0) eqn:Hy;
    destruct (x (App.directionRef st) =? 0) eqn:Hx;
    try apply Z.eqb_eq in Hy; try apply Z.eqb_eq in Hx;
    repeat match goal with
           | |- context [if (?a || ?b)%bool && _ then _ else _] =>
               destruct (a || b)%bool; cbn [andb]
           end;
    try (left; reflexivity);
    (right; eexists;
     split; [|split; [|split; [reflexivity|split; reflexivity]]];
     [ unfold unitDirection, dirUp, dirDown, dirLeft, dirRight; tauto
     | unfold dot; cbn [x y]; lia ]).
Qed.

Lemma appShape_initial : appShape App.initial.
Proof.
  assert (Hr : unitDirection {| x := 1; y := 0 |})
    by (do 3 right; reflexivity).
  unfold appShape, App.initial, App.INITIAL_DIRECTION.
  cbn [App.directionRef App.direction App.snake App.food App.score
       App.gameOver App.isPlaying App.gameMode].
  split; [exact Hr|]. split; [exact Hr|].
  split; [repeat constructor; simpl; unfold App.GRID_SIZE; lia|].
  split; [unfold inGrid, App.GRID_SIZE; simpl; lia|].
  split; [reflexivity|]. split; [exact I|].
  split; [discriminate | reflexivity].
Qed.

Lemma appShape_reset st : appShape (App.resetGame st).
Proof.
  assert (Hr : unitDirection {| x := 1; y := 0 |})
    by (do 3 right; reflexivity).
  unfold appShape, App.resetGame, App.INITIAL_DIRECTION.
  cbn [App.directionRef App.direction App.snake App.food App.score
       App.gameOver App.isPlaying App.gameMode].
  split; [exact Hr|]. split; [exact Hr|].
  split; [repeat constructor; simpl; unfold App.GRID_SIZE; lia|].
  split; [unfold inGrid, App.GRID_SIZE; simpl; lia|].
  split; [reflexivity|]. split; [exact I|].
  split; discriminate.
Qed.

Lemma appShape_tick draws st st' :
  appShape st ->
  App.isPlaying st = true ->
  App.gameOver st = false ->
  App.gameLoop draws st = Returns st' ->
  appShape st'.
Proof.
  intros [Hr [Hd [Hin [Hf [Hsc [Hl [Hgo Hpa]]]]]]] Hplay Hover.
  unfold App.gameLoop.
  destruct (App.snake st) as [|head body] eqn:Hs; [discriminate|].
  assert (Hcollided : appShape (App.collided st)).
  { unfold appShape, App.collided. cbn. rewrite Hs.
    repeat split; try assumption; try reflexivity; try apply Hin;
      try apply Hf; try apply Hl; discriminate. }
  destruct (App.landing st head) as [newHead|] eqn:Hland;
    [|intros E; injection E as <-; exact Hcollided].
  destruct (app_landing_spec st head newHead Hr
              (Forall_inv Hin) Hland) as [Hnew Hnear].
  destruct (existsb _ (head :: body));
    [intros E; injection E as <-; exact Hcollided|].
  destruct (same newHead (App.food st)).
  - destruct (App.generateFood draws (newHead :: head :: body))
      as [f| |] eqn:G; try discriminate.
    intros E. injection E as <-. unfold appShape.
    cbn [App.directionRef App.direction App.snake App.food App.score
         App.gameOver App.isPlaying App.gameMode].
    rewrite Hover, Hplay.
    split; [exact Hr|]. split; [exact Hr|].
    split; [constructor; assumption|].
    split; [apply (generateFood_returns _ _ _ G)|].
    split; [rewrite Hsc; cbn [List.length]; lia|].
    split; [split; assumption|].
    split; discriminate.
  - remember (removelast (newHead :: head :: body)) as moved eqn:Hm.
    intros E. injection E as <-. unfold appShape.
    cbn [App.directionRef App.direction App.snake App.food App.score
         App.gameOver App.isPlaying App.gameMode].
    rewrite Hover, Hplay. subst moved.
    split; [exact Hr|]. split; [exact Hr|].
    split; [apply Forall_pop; constructor; assumption|].
    split; [exact Hf|].
    split; [rewrite pop_cons_length by discriminate; exact Hsc|].
    split; [apply linked_pop; split; assumption|].
    split; discriminate.
Qed.

Lemma appShape_key ekey st : appShape st -> appShape (App.handleKeyPress ekey st).
Proof.
  intros Hsh.
  destruct (handleKeyPress_cases ekey st)
    as [->|[d [Hd [_ [Hplay [_ ->]]]]]]; [exact Hsh|].
  destruct Hsh as [Hr [Hdir [Hin [Hf [Hsc [Hl [Hgo Hpa]]]]]]].
  unfold appShape, App.setDirectionRef. cbn.
  repeat split; try assumption; try apply Hin; try apply Hf; try apply Hl.
  intros E. rewrite E in Hplay. discriminate Hplay.
Qed.

Lemma appShape_mode m st :
  appShape st -> App.isPlaying st = false -> appShape (App.setGameMode m st).
Proof.
  intros [Hr [Hdir [Hin [Hf [Hsc [Hl [Hgo Hpa]]]]]]] Hplay.
  unfold appShape, App.setGameMode. cbn.
  repeat split; try assumption; try apply Hin; try apply Hf; try apply Hl.
  intros _ Hover. rewrite (Hpa Hplay Hover). reflexivity.
Qed.

Lemma appShape_step st ev st' : appShape st -> App.step st ev st' -> appShape st'.
Proof.
  intros Hsh [Hen Hh]. destruct ev as [draws|ekey| |m]; simpl in Hen, Hh.
  - apply andb_true_iff in Hen. destruct Hen as [Hplay Hover].
    apply negb_true_iff in Hover.
    eapply appShape_tick; eassumption.
  - injection Hh as <-. apply appShape_key. exact Hsh.
  - injection Hh as <-. apply appShape_reset.
  - injection Hh as <-. apply appShape_mode; [exact Hsh|].
    apply negb_true_iff. exact Hen.
Qed.

Lemma appShape_reachable st : App.reachable st -> appShape st.
Proof.
  induction 1 as [|st ev st' _ IH Hstep].
  - exact appShape_initial.
  - eapply appShape_step; eassumption.
Qed.

(** ** What every render of [Canvas] looks like *)

Lemma canvas_landing_spec scope head nd newHead :
  unitDirection nd ->
  inGrid (Canvas.gridSize scope) head ->
  Canvas.landing scope head nd = Some newHead ->
  inGrid (Canvas.gridSize scope) newHead /\
  near (Canvas.gridSize scope) newHead head.
Proof.
  intros Hu Hh. unfold Canvas.landing.
  destruct (Canvas.wrapWalls scope).
  - intros H. injection H as <-. split.
    + apply wrap_inGrid; assumption.
    + exists nd. split; [exact Hu | right; reflexivity].
  - destruct (outside (Canvas.gridSize scope) (plus head nd)) eqn:E;
      [discriminate|].
    intros H. injection H as <-. split.
    + apply outside_false_inGrid. exact E.
    + exists nd. split; [exact Hu | left; reflexivity].
Qed.

Lemma linked_push R (l : list point) (h p : point) :
  Canvas.headOf l = Some h -> R h p -> linked R l -> linked R (l ++ [p]).
Proof.
  induction l as [|a l IH]; [discriminate|].
  destruct l as [|b l].
  - simpl. intros E Hr _. injection E as <-. split; [exact Hr | exact I].
  - intros E Hr [Hab Hl].
    change ((a :: b :: l) ++ [p]) with (a :: b :: (l ++ [p])).
    split; [exact Hab|].
    apply IH; [|exact Hr|exact Hl].
    simpl in E. simpl. exact E.
Qed.

Lemma linked_shift R (l : list point) : linked R l -> linked R (tl l).
Proof.
  destruct l as [|a l]; [trivial|]. destruct l as [|b l]; [trivial|].
  intros [_ H]. exact H.
Qed.

Lemma Forall_shift (P : point -> Prop) (l : list point) :
  Forall P l -> Forall P (tl l).
Proof. intros H. destruct H; [constructor | assumption]. Qed.

Lemma shift_push_length (l : list point) (p : point) :
  List.length (tl (l ++ [p])) = List.length l.
Proof. destruct l; simpl; [reflexivity|]. rewrite length_app. simpl. lia. Qed.

(** The food that [randomFoodPosition] returns is a cell of the grid, with
    or without a free cell left. *)
Lemma randomFoodPosition_inGrid (l : list point) (g : Z) (u : random) :
  0 < g -> inGrid g (Canvas.randomFoodPosition l g u).
Proof.
  intros Hg. destruct (Canvas.freeCells l g) as [|c free] eqn:E.
  - rewrite (randomFoodPosition_fallback _ _ u E).
    unfold inGrid. simpl. lia.
  - assert (Hne : Canvas.freeCells l g <> []) by (rewrite E; discriminate).
    apply (randomFoodPosition_free l g u) in Hne.
    apply freeCells_In in Hne. apply Hne.
Qed.

Lemma lookup_unit (ekey : string) (nd : point) :
  Canvas.lookup ekey Canvas.map = Some nd -> unitDirection nd.
Proof.
  unfold Canvas.map, Canvas.lookup.
  repeat match goal with
         | |- context [(?k =? ekey)%string] =>
             destruct (k =? ekey)%string;
             [intros E; injection E as <-;
              unfold unitDirection, dirUp, dirDown, dirLeft, dirRight; tauto|]
         end.
  discriminate.
Qed.

(** What a key press of [Canvas] can do: flip [running], nothing, or set
    [direction] to a unit direction that is not the opposite of the pending
    one. *)
Lemma handleKey_cases ekey st :
  Canvas.handleKey ekey st = Canvas.setRunning (negb (Canvas.running st)) st
  \/ Canvas.handleKey ekey st = st
  \/ exists nd,
       unitDirection nd /\ nd <> negate (Canvas.dirRef st) /\
       Canvas.handleKey ekey st = Canvas.setDirection nd st.
Proof.
  unfold Canvas.handleKey.
  destruct ((ekey =? " ") || (ekey =? "Spacebar"))%string;
    [left; reflexivity|].
  destruct (Canvas.lookup ekey Canvas.map) as [nd|] eqn:Hl;
    [|right; left; reflexivity].
  destruct ((x (Canvas.dirRef st) + x nd =? 0)
            && (y (Canvas.dirRef st) + y nd =? 0)) eqn:E;
    [right; left; reflexivity|].
  right. right. exists nd.
  split; [exact (lookup_unit _ _ Hl)|]. split; [|reflexivity].
  intros ->. unfold negate in E. cbn [x y] in E.
  rewrite !Z.add_opp_diag_r in E. discriminate E.
Qed.

Lemma turn_cases dx dy st :
  Canvas.turn dx dy st = st \/
  ({| x := dx; y := dy |} <> negate (Canvas.dirRef st) /\
   Canvas.turn dx dy st = Canvas.setDirection {| x := dx; y := dy |} st).
Proof.
  unfold Canvas.turn.
  destruct ((x (Canvas.dirRef st) + dx =? 0)
            && (y (Canvas.dirRef st) + dy =? 0)) eqn:E;
    [left; reflexivity|].
  right. split; [|reflexivity].
  intros H. injection H as -> ->.
  rewrite !Z.add_opp_diag_r in E. discriminate E.
Qed.

Lemma padDelta_unit (b : Canvas.pad) :
  unitDirection {| x := fst (Canvas.padDelta b); y := snd (Canvas.padDelta b) |}.
Proof.
  destruct b; unfold unitDirection, dirUp, dirDown, dirLeft, dirRight;
    simpl; tauto.
Qed.

Lemma canvasShape_scene w : canvasShape w -> sceneShape (Canvas.scene w).
Proof.
  intros [Hg [_ [Hd [_ [_ [Hu [Hin [Hf [Hl Hsc]]]]]]]]].
  unfold sceneShape. rewrite <- Hd. tauto.
Qed.

Lemma rendered_shape w st1 :
  Canvas.gridSize (Canvas.tickScope w) = 20 ->
  sceneShape st1 ->
  canvasShape (Canvas.rendered w st1).
Proof.
  intros Hscope [Hg [Hu [Hin [Hf [Hl Hsc]]]]].
  unfold canvasShape, Canvas.rendered.
  cbn [Canvas.scene Canvas.tickScope].
  split; [exact Hg|]. split.
  - destruct (Qeq_bool _ _); [exact Hscope | exact Hg].
  - repeat split; try reflexivity; try assumption; try apply Hf;
      try apply Hsc.
Qed.

Lemma start_shape :
  Forall (inGrid 20) (Canvas.start 20) /\
  linked (fun b a => near 20 a b) (Canvas.start 20).
Proof.
  split.
  - unfold Canvas.start. change (20 / 2) with 10.
    constructor; [unfold inGrid; cbn [x y]; lia|].
    constructor; [unfold inGrid; cbn [x y]; lia | constructor].
  - split; [|exact I]. exists dirRight.
    split; [do 3 right; reflexivity | left; reflexivity].
Qed.

Lemma sceneShape_tick scope st u st' :
  Canvas.gridSize scope = 20 ->
  sceneShape st ->
  Canvas.snakeRef st = Canvas.snake st ->
  Canvas.dirRef st = Canvas.direction st ->
  Canvas.moveSnake scope st u = Returns st' ->
  sceneShape st'.
Proof.
  intros Hscope Hsh Hsn Hdr. pose proof Hsh as Hkeep.
  destruct Hsh as [Hg [Hu [Hin [Hf [Hl Hsc]]]]].
  unfold Canvas.moveSnake. rewrite Hsn, Hdr.
  destruct (Canvas.headOf (Canvas.snake st)) as [head|] eqn:Hh;
    [|discriminate].
  destruct (Canvas.landing scope head (Canvas.direction st))
    as [newHead|] eqn:Hland;
    [|intros E; injection E as <-; exact Hkeep].
  assert (Hhead : inGrid (Canvas.gridSize scope) head).
  { rewrite Hscope. apply headOf_In in Hh.
    exact (proj1 (Forall_forall _ _) Hin head Hh). }
  destruct (canvas_landing_spec scope head _ newHead Hu Hhead Hland)
    as [Hnew Hnear].
  rewrite Hscope in Hnew, Hnear.
  destruct (existsb _ (Canvas.snake st));
    [intros E; injection E as <-; exact Hkeep|].
  destruct (same newHead (Canvas.food scope)).
  - intros E. injection E as <-. unfold sceneShape.
    cbn [Canvas.gridSize Canvas.direction Canvas.snake Canvas.food
         Canvas.score Canvas.setSnake Canvas.setSpeed Canvas.setFood
         Canvas.setScore].
    split; [exact Hg|]. split; [exact Hu|].
    split; [apply Forall_app; split; [exact Hin | constructor; [exact Hnew | constructor]]|].
    split; [rewrite Hscope; apply randomFoodPosition_inGrid; lia|].
    split; [apply (linked_push _ _ head); assumption|].
    rewrite length_app. cbn [List.length]. lia.
  - intros E. injection E as <-. unfold sceneShape.
    cbn [Canvas.gridSize Canvas.direction Canvas.snake Canvas.food
         Canvas.score Canvas.setSnake].
    split; [exact Hg|]. split; [exact Hu|].
    split; [apply Forall_shift, Forall_app; split;
            [exact Hin | constructor; [exact Hnew | constructor]]|].
    split; [exact Hf|].
    split; [apply linked_shift, (linked_push _ _ head); assumption|].
    rewrite shift_push_length. exact Hsc.
Qed.

Lemma sceneShape_handle w ev st1 :
  canvasShape w ->
  Canvas.handle ev w = Returns st1 ->
  sceneShape st1.
Proof.
  intros Hw Hh. pose proof (canvasShape_scene w Hw) as Hsh.
  destruct Hw as [Hg [Hscope [Hd [Hsn [_ _]]]]].
  pose proof Hsh as Hkeep.
  destruct Hsh as [_ [Hu [Hin [Hf [Hl Hsc]]]]].
  destruct ev as [u|ekey|b| |u| | |v]; simpl in Hh.
  - destruct (Canvas.runningRef (Canvas.scene w)).
    + eapply sceneShape_tick; eassumption.
    + injection Hh as <-. exact Hkeep.
  - injection Hh as <-.
    destruct (handleKey_cases ekey (Canvas.scene w))
      as [->|[->|[nd [Hnd [_ ->]]]]]; try exact Hkeep.
    unfold sceneShape. cbn. tauto.
  - injection Hh as <-.
    destruct (turn_cases (fst (Canvas.padDelta b)) (snd (Canvas.padDelta b))
                (Canvas.scene w)) as [->|[_ ->]]; [exact Hkeep|].
    unfold sceneShape.
    cbn [Canvas.gridSize Canvas.direction Canvas.snake Canvas.food
         Canvas.score Canvas.setDirection].
    split; [exact Hg|]. split; [apply padDelta_unit|]. tauto.
  - injection Hh as <-. exact Hkeep.
  - injection Hh as <-. unfold sceneShape, Canvas.resetGame.
    cbn [Canvas.gridSize Canvas.direction Canvas.snake Canvas.food
         Canvas.score Canvas.setSnake Canvas.setSpeed Canvas.setFood
         Canvas.setScore Canvas.setRunning Canvas.setDirection
         Canvas.assignDirRef].
    rewrite Hg.
    split; [reflexivity|].
    split; [do 3 right; reflexivity|].
    split; [apply start_shape|].
    split; [apply randomFoodPosition_inGrid; lia|].
    split; [apply start_shape|].
    simpl. lia.
  - injection Hh as <-. exact Hkeep.
  - injection Hh as <-. unfold sceneShape.
    cbn [Canvas.gridSize Canvas.direction Canvas.snake Canvas.food
         Canvas.score Canvas.clearHigh Canvas.setScore Canvas.setHighScore].
    repeat split; try assumption; try apply Hf; lia.
  - injection Hh as <-. exact Hkeep.
Qed.

Lemma canvasShape_dispatch w ev w' :
  canvasShape w -> Canvas.dispatch ev w = Returns w' -> canvasShape w'.
Proof.
  intros Hw Hd. unfold Canvas.dispatch in Hd.
  destruct (Canvas.handle ev w) as [st1| |] eqn:Hh; try discriminate.
  injection Hd as <-. apply rendered_shape.
  - apply Hw.
  - eapply sceneShape_handle; eassumption.
Qed.

Lemma canvasShape_mounted u stored : canvasShape (Canvas.mounted u stored).
Proof.
  unfold canvasShape, Canvas.mounted, Canvas.initial.
  cbn [Canvas.scene Canvas.tickScope Canvas.gridSize Canvas.dirRef
       Canvas.direction Canvas.snakeRef Canvas.snake Canvas.runningRef
       Canvas.running Canvas.food Canvas.score].
  split; [reflexivity|]. split; [reflexivity|]. split; [reflexivity|].
  split; [reflexivity|]. split; [reflexivity|].
  split; [do 3 right; reflexivity|].
  split; [apply start_shape|].
  split; [apply randomFoodPosition_inGrid; lia|].
  split; [apply start_shape|].
  simpl. lia.
Qed.

Lemma canvasShape_reachable w : Canvas.reachable w -> canvasShape w.
Proof.
  induction 1 as [u stored|w ev w' _ IH Hd].
  - apply canvasShape_mounted.
  - eapply canvasShape_dispatch; eassumption.
Qed.

(** ** Invariants of the two games *)

Lemma app_started_reachable : App.reachable (App.resetGame App.initial).
Proof.
  apply (App.reachable_step App.initial App.ClickStart).
  - apply App.reachable_initial.
  - split; reflexivity.
Qed.

(** X1: the score counts the food eaten, and so does the length of the
    snake.  In [App] the score is always ten times the number of cells the
    snake has gained over its first cell; in [Canvas], where Clear High can
    put the score back to zero in mid-game, it is never negative and never
    more than the number of cells gained over the first two. *)
Theorem score_counts_the_growth :
  (forall st,
      App.reachable st ->
      App.score st = 10 * (Z.of_nat (List.length (App.snake st)) - 1))
  /\
  (forall w,
      Canvas.reachable w ->
      0 <= Canvas.score (Canvas.scene w)
        <= Z.of_nat (List.length (Canvas.snake (Canvas.scene w))) - 2).
Proof.
  split.
  - intros st Hst. apply (appShape_reachable st Hst).
  - intros w Hw. apply (canvasShape_reachable w Hw).
Qed.

Lemma score_counts_the_growth_witness :
  App.score (App.resetGame App.initial)
  = 10 * (Z.of_nat (List.length (App.snake (App.resetGame App.initial))) - 1)
  /\
  0 <= Canvas.score (Canvas.scene (Canvas.mounted (mkRandom 0 0) 0))
    <= Z.of_nat
         (List.length
            (Canvas.snake (Canvas.scene (Canvas.mounted (mkRandom 0 0) 0))))
       - 2.
Proof.
  destruct score_counts_the_growth as [HA HC]. split.
  - apply HA. exact app_started_reachable.
  - apply HC. apply Canvas.reachable_mounted.
Defined.

Lemma played_reachable w : played w -> Canvas.reachable w.
Proof.
  induction 1 as [u stored|w ev w' _ IH _ Hd].
  - apply Canvas.reachable_mounted.
  - eapply Canvas.reachable_dispatch; eassumption.
Qed.

Lemma played_after_a_turn :
  exists w,
    Canvas.dispatch (Canvas.KeyDown "ArrowUp")
      (Canvas.mounted (mkRandom 0 0) 0) = Returns w /\
    played w.
Proof.
  eexists. split; [reflexivity|].
  apply (played_dispatch (Canvas.mounted (mkRandom 0 0) 0)
           (Canvas.KeyDown "ArrowUp")).
  - apply played_mounted.
  - reflexivity.
  - reflexivity.
Qed.

(** X2: the snake never leaves the board: in every reachable state of [App],
    and in every render of [Canvas] reached with the keys of a keyboard (no
    key event named after a member of [Object.prototype]), each cell of the
    snake has both coordinates in 0 .. 19. *)
Theorem snake_stays_on_the_board :
  (forall st,
      App.reachable st -> Forall (inGrid App.GRID_SIZE) (App.snake st))
  /\
  (forall w,
      played w ->
      Forall (inGrid 20) (Canvas.snake (Canvas.scene w))).
Proof.
  split.
  - intros st Hst. apply (appShape_reachable st Hst).
  - intros w Hw.
    apply (canvasShape_reachable w (played_reachable w Hw)).
Qed.

Lemma snake_stays_on_the_board_witness :
  Forall (inGrid App.GRID_SIZE) (App.snake (App.resetGame App.initial)) /\
  Forall (inGrid 20)
    (Canvas.snake
       (Canvas.scene
          (Canvas.rendered (Canvas.mounted (mkRandom 0 0) 0)
             (Canvas.handleKey "ArrowUp"
                (Canvas.scene (Canvas.mounted (mkRandom 0 0) 0)))))).
Proof.
  destruct snake_stays_on_the_board as [HA HC]. split.
  - apply HA. exact app_started_reachable.
  - apply HC.
    apply (played_dispatch (Canvas.mounted (mkRandom 0 0) 0)
             (Canvas.KeyDown "ArrowUp")).
    + apply played_mounted.
    + reflexivity.
    + reflexivity.
Defined.

(** X3: the snake is one connected chain: in every reachable state of
    [App], and in every render of [Canvas] reached with the keys of a
    keyboard, each cell is the neighbour, in one of the four directions, of
    the cell that follows it towards the tail, either directly or through
    the border of the board (a move made with wrapping walls). *)
Theorem snake_is_a_chain :
  (forall st,
      App.reachable st -> linked (near App.GRID_SIZE) (App.snake st))
  /\
  (forall w,
      played w ->
      linked (fun b a => near 20 a b) (Canvas.snake (Canvas.scene w))).
Proof.
  split.
  - intros st Hst. apply (appShape_reachable st Hst).
  - intros w Hw.
    apply (canvasShape_reachable w (played_reachable w Hw)).
Qed.

Lemma snake_is_a_chain_witness :
  linked (near App.GRID_SIZE) (App.snake (App.resetGame App.initial)) /\
  linked (fun b a => near 20 a b)
    (Canvas.snake
       (Canvas.scene
          (Canvas.rendered (Canvas.mounted (mkRandom 0 0) 0)
             (Canvas.handleKey "ArrowUp"
                (Canvas.scene (Canvas.mounted (mkRandom 0 0) 0)))))).
Proof.
  destruct snake_is_a_chain as [HA HC]. split.
  - apply HA. exact app_started_reachable.
  - apply HC.
    apply (played_dispatch (Canvas.mounted (mkRandom 0 0) 0)
             (Canvas.KeyDown "ArrowUp")).
    + apply played_mounted.
    + reflexivity.
    + reflexivity.
Defined.

(** X4: the direction is always one step along one axis: in every
    reachable state of [App] the pending and the committed direction, and in
    every render of [Canvas] reached with the keys of a keyboard the pending
    direction, is (0,-1), (0,1), (-1,0) or (1,0); in [Canvas] [direction]
    and [dirRef] agree after every render. *)
Theorem direction_is_one_step :
  (forall st,
      App.reachable st ->
      unitDirection (App.directionRef st) /\ unitDirection (App.direction st))
  /\
  (forall w,
      played w ->
      unitDirection (Canvas.dirRef (Canvas.scene w)) /\
      Canvas.direction (Canvas.scene w) = Canvas.dirRef (Canvas.scene w)).
Proof.
  split.
  - intros st Hst.
    destruct (appShape_reachable st Hst) as [H1 [H2 _]]. split; assumption.
  - intros w Hw.
    destruct (canvasShape_reachable w (played_reachable w Hw))
      as [_ [_ [Hd [_ [_ [Hu _]]]]]].
    split; [exact Hu | symmetry; exact Hd].
Qed.

Lemma direction_is_one_step_witness :
  (unitDirection (App.directionRef (App.resetGame App.initial)) /\
   unitDirection (App.direction (App.resetGame App.initial)))
  /\
  (unitDirection
     (Canvas.dirRef
        (Canvas.scene
           (Canvas.rendered (Canvas.mounted (mkRandom 0 0) 0)
              (Canvas.handleKey "ArrowUp"
                 (Canvas.scene (Canvas.mounted (mkRandom 0 0) 0))))))
   /\
   Canvas.direction
     (Canvas.scene
        (Canvas.rendered (Canvas.mounted (mkRandom 0 0) 0)
           (Canvas.handleKey "ArrowUp"
              (Canvas.scene (Canvas.mounted (mkRandom 0 0) 0)))))
   = Canvas.dirRef
       (Canvas.scene
          (Canvas.rendered (Canvas.mounted (mkRandom 0 0) 0)
             (Canvas.handleKey "ArrowUp"
                (Canvas.scene (Canvas.mounted (mkRandom 0 0) 0)))))).
Proof.
  destruct direction_is_one_step as [HA HC]. split.
  - apply HA. exact app_started_reachable.
  - apply HC.
    apply (played_dispatch (Canvas.mounted (mkRandom 0 0) 0)
             (Canvas.KeyDown "ArrowUp")).
    + apply played_mounted.
    + reflexivity.
    + reflexivity.
Defined.

(** X5: the food is always on the board, and in [App] it is never under the
    snake. *)
Theorem food_stays_on_the_board :
  (forall st,
      App.reachable st ->
      inGrid App.GRID_SIZE (App.food st) /\
      ~ In (App.food st) (App.snake st))
  /\
  (forall w,
      Canvas.reachable w -> inGrid 20 (Canvas.food (Canvas.scene w))).
Proof.
  split.
  - intros st Hst. split.
    + apply (appShape_reachable st Hst).
    + apply app_food_off_snake. exact Hst.
  - intros w Hw. apply (canvasShape_reachable w Hw).
Qed.

Lemma food_stays_on_the_board_witness :
  (inGrid App.GRID_SIZE (App.food (App.resetGame App.initial)) /\
   ~ In (App.food (App.resetGame App.initial))
        (App.snake (App.resetGame App.initial)))
  /\
  inGrid 20 (Canvas.food (Canvas.scene (Canvas.mounted (mkRandom 0 0) 0))).
Proof.
  destruct food_stays_on_the_board as [HA HC]. split.
  - apply HA. exact app_started_reachable.
  - apply HC. apply Canvas.reachable_mounted.
Defined.

(** X6: [App] has no pause.  The two flags are never set together, and a
    state that is neither playing nor over is the first render, up to the
    wall mode chosen: once started, a game runs until it is over. *)
Theorem app_is_paused_only_before_the_first_game :
  forall st,
    App.reachable st ->
    (App.gameOver st = true -> App.isPlaying st = false) /\
    (App.phaseOf st = Paused ->
     st = App.setGameMode (App.gameMode st) App.initial).
Proof.
  intros st Hst.
  destruct (appShape_reachable st Hst)
    as [_ [_ [_ [_ [_ [_ [Hgo Hpa]]]]]]].
  split; [exact Hgo|].
  unfold App.phaseOf.
  destruct (App.gameOver st); [discriminate|].
  destruct (App.isPlaying st); [discriminate|].
  intros _. apply Hpa; reflexivity.
Qed.

Lemma app_is_paused_only_before_the_first_game_witness :
  (App.gameOver (App.setGameMode App.pass_through App.initial) = true ->
   App.isPlaying (App.setGameMode App.pass_through App.initial) = false) /\
  (App.phaseOf (App.setGameMode App.pass_through App.initial) = Paused ->
   App.setGameMode App.pass_through App.initial
   = App.setGameMode
       (App.gameMode (App.setGameMode App.pass_through App.initial))
       App.initial).
Proof.
  apply app_is_paused_only_before_the_first_game.
  apply (App.reachable_step App.initial (App.ClickMode App.pass_through)).
  - apply App.reachable_initial.
  - split; reflexivity.
Defined.

Lemma gameLoop_gameMode draws st st' :
  App.gameLoop draws st = Returns st' -> App.gameMode st' = App.gameMode st.
Proof.
  unfold App.gameLoop.
  destruct (App.snake st) as [|head body]; [discriminate|].
  destruct (App.landing st head) as [newHead|];
    [|intros E; injection E as <-; reflexivity].
  destruct (existsb _ (head :: body));
    [intros E; injection E as <-; reflexivity|].
  destruct (same newHead (App.food st)).
  - destruct (App.generateFood draws (newHead :: head :: body));
      try discriminate.
    intros E. injection E as <-. reflexivity.
  - intros E. injection E as <-. reflexivity.
Qed.

(** X7: in [App] the wall mode cannot change during a game: the only event
    that changes [gameMode] is a click on a mode button, and that button is
    disabled while the game is playing. *)
Theorem app_mode_is_fixed_during_a_game :
  forall st ev st',
    App.step st ev st' ->
    App.gameMode st' <> App.gameMode st ->
    App.isPlaying st = false /\ ev = App.ClickMode (App.gameMode st').
Proof.
  intros st ev st' [Hen Hh] Hne.
  destruct ev as [draws|ekey| |m]; simpl in Hen, Hh.
  - exfalso. apply Hne. eapply gameLoop_gameMode. exact Hh.
  - exfalso. apply Hne. injection Hh as <-.
    destruct (handleKeyPress_cases ekey st) as [->|[d [_ [_ [_ [_ ->]]]]]];
      reflexivity.
  - exfalso. apply Hne. injection Hh as <-. reflexivity.
  - injection Hh as <-. split; [|reflexivity].
    apply negb_true_iff. exact Hen.
Qed.

Lemma app_mode_is_fixed_during_a_game_witness :
  App.isPlaying App.initial = false /\
  App.ClickMode App.pass_through
  = App.ClickMode
      (App.gameMode (App.setGameMode App.pass_through App.initial)).
Proof.
  apply (app_mode_is_fixed_during_a_game App.initial
           (App.ClickMode App.pass_through)
           (App.setGameMode App.pass_through App.initial)).
  - split; reflexivity.
  - discriminate.
Defined.

(** ** The two components against each other *)







(** ** Where the food can go *)

Lemma upto_NoDup (n : Z) : NoDup (upto n).
Proof.
  unfold upto. generalize (seq_NoDup (Z.to_nat n) 0).
  induction 1 as [|k l Hnot Hl IH]; simpl; constructor; [|exact IH].
  rewrite in_map_iff. intros [k' [E Hk']].
  apply Nat2Z.inj in E. subst k'. contradiction.
Qed.

Lemma upto_length (n : Z) : List.length (upto n) = Z.to_nat n.
Proof. unfold upto. rewrite length_map, length_seq. reflexivity. Qed.

Lemma rows_NoDup (rows cols : list Z) :
  NoDup rows -> NoDup cols ->
  NoDup (flat_map (fun i => List.map (fun j => {| x := i; y := j |}) cols)
           rows).
Proof.
  intros Hrows Hcols.
  induction Hrows as [|i rows Hnot Hrows IH]; simpl; [constructor|].
  apply NoDup_app; [|exact IH|].
  - clear IH. induction Hcols as [|j cols Hn Hc IHc]; simpl; constructor;
      [|exact IHc].
    rewrite in_map_iff. intros [j' [E Hj']].
    injection E as ->. contradiction.
  - intros c Hc Hc'. apply in_map_iff in Hc. destruct Hc as [j [<- _]].
    apply in_flat_map in Hc'. destruct Hc' as [i' [Hi' Hc']].
    apply in_map_iff in Hc'. destruct Hc' as [j' [E _]].
    injection E as -> _. contradiction.
Qed.

Lemma cells_NoDup (g : Z) : NoDup (Canvas.cells g).
Proof. apply rows_NoDup; apply upto_NoDup. Qed.

Lemma rows_length (rows cols : list Z) :
  List.length
    (flat_map (fun i => List.map (fun j => {| x := i; y := j |}) cols) rows)
  = (List.length rows * List.length cols)%nat.
Proof.
  induction rows as [|i rows IH]; [reflexivity|].
  simpl. rewrite length_app, length_map, IH. reflexivity.
Qed.

Lemma cells_length (g : Z) :
  List.length (Canvas.cells g) = (Z.to_nat g * Z.to_nat g)%nat.
Proof. unfold Canvas.cells. rewrite rows_length, upto_length. reflexivity. Qed.

Lemma filter_split_length (f : point -> bool) (l : list point) :
  (List.length (filter f l)
   + List.length (filter (fun c => negb (f c)) l))%nat
  = List.length l.
Proof.
  induction l as [|a l IH]; [reflexivity|].
  simpl. destruct (f a); simpl; lia.
Qed.

(** X9: [randomFoodPosition] offers exactly the cells the snake leaves.
    For a snake without repeated cells that lies on the [grid] x [grid]
    board, the list [free] it builds holds no cell twice, and its length is
    [grid * grid] less the length of the snake. *)
Theorem free_cells_are_what_the_snake_leaves :
  forall snakeArr grid,
    NoDup snakeArr ->
    Forall (inGrid grid) snakeArr ->
    NoDup (Canvas.freeCells snakeArr grid) /\
    (List.length (Canvas.freeCells snakeArr grid) + List.length snakeArr
     = Z.to_nat grid * Z.to_nat grid)%nat.
Proof.
  intros l g Hnd Hin. split.
  - unfold Canvas.freeCells. apply NoDup_filter. apply cells_NoDup.
  - pose (taken c := Canvas.has (List.map Canvas.key l) (Canvas.key c)).
    assert (Hsame : List.length (filter taken (Canvas.cells g))
                    = List.length l).
    { apply Nat.le_antisymm.
      - apply NoDup_incl_length;
          [apply NoDup_filter; apply cells_NoDup|].
        intros c Hc. apply filter_In in Hc. apply has_key_In. apply Hc.
      - apply NoDup_incl_length; [exact Hnd|].
        intros c Hc. apply filter_In. split.
        + apply cells_inGrid.
          exact (proj1 (Forall_forall _ _) Hin c Hc).
        + apply has_key_In. exact Hc. }
    pose proof (filter_split_length taken (Canvas.cells g)) as Hsplit.
    rewrite cells_length in Hsplit.
    unfold Canvas.freeCells. fold taken.
    replace (filter (fun c => negb (taken c)) (Canvas.cells g))
      with (filter (fun c => negb (Canvas.has (List.map Canvas.key l)
                                     (Canvas.key c))) (Canvas.cells g))
      in Hsplit by reflexivity.
    lia.
Qed.

Lemma free_cells_are_what_the_snake_leaves_witness :
  NoDup (Canvas.freeCells (Canvas.start 20) 20) /\
  (List.length (Canvas.freeCells (Canvas.start 20) 20)
   + List.length (Canvas.start 20)
   = Z.to_nat 20 * Z.to_nat 20)%nat.
Proof.
  apply free_cells_are_what_the_snake_leaves.
  - constructor; [|constructor; [simpl; tauto | constructor]].
    simpl. intros [E|[]]. discriminate E.
  - apply start_shape.
Defined.

Lemma floorScaled_hits (k n : nat) :
  (k < n)%nat -> floorScaled (mkRandom k (n - k - 1)) n = k.
Proof.
  intros Hk. unfold floorScaled. cbn [numer slack].
  replace (k + (n - k - 1) + 1)%nat with n by lia.
  apply Nat.div_mul. lia.
Qed.

(** X10: no free cell is left out.  Every cell of the list [free] is the
    answer of [randomFoodPosition] for some value of [Math.random()], and in
    [App] every cell of the board off the snake is what [generateFood]
    returns for some pair of values. *)
Theorem every_free_cell_can_get_the_food :
  (forall snakeArr grid c,
      In c (Canvas.freeCells snakeArr grid) ->
      exists u, Canvas.randomFoodPosition snakeArr grid u = c)
  /\
  (forall currentSnake c,
      inGrid App.GRID_SIZE c ->
      ~ In c currentSnake ->
      exists u, App.generateFood [u] currentSnake = Returns c).
Proof.
  split.
  - intros l g c Hc.
    destruct (In_nth _ _ {| x := 0; y := 0 |} Hc) as [k [Hk Hnth]].
    exists (mkRandom k (List.length (Canvas.freeCells l g) - k - 1)).
    unfold Canvas.randomFoodPosition.
    destruct (Canvas.freeCells l g) as [|c0 free] eqn:E; [destruct Hc|].
    rewrite floorScaled_hits by exact Hk. exact Hnth.
  - intros l c [Hx Hy] Hout. unfold App.GRID_SIZE in Hx, Hy.
    exists (mkRandom (Z.to_nat (x c)) (20 - Z.to_nat (x c) - 1),
            mkRandom (Z.to_nat (y c)) (20 - Z.to_nat (y c) - 1)).
    assert (Hd : App.drawn
                   (mkRandom (Z.to_nat (x c)) (20 - Z.to_nat (x c) - 1),
                    mkRandom (Z.to_nat (y c)) (20 - Z.to_nat (y c) - 1))
                 = c).
    { unfold App.drawn. cbn [fst snd].
      change (Z.to_nat App.GRID_SIZE) with 20%nat.
      rewrite !floorScaled_hits by lia.
      rewrite !Z2Nat.id by lia. destruct c; reflexivity. }
    cbn [App.generateFood]. rewrite Hd.
    apply some_same_not_In in Hout. rewrite Hout. reflexivity.
Qed.

Lemma every_free_cell_can_get_the_food_witness :
  (exists u,
      Canvas.randomFoodPosition (Canvas.start 20) 20 u = {| x := 3; y := 4 |})
  /\
  (exists u, App.generateFood [u] App.INITIAL_SNAKE = Returns {| x := 3; y := 4 |}).
Proof.
  destruct every_free_cell_can_get_the_food as [HC HA]. split.
  - apply HC. apply freeCells_In. split.
    + unfold inGrid. simpl. lia.
    + simpl. intros [E|[E|[]]]; discriminate E.
  - apply HA.
    + unfold inGrid, App.GRID_SIZE. simpl. lia.
    + simpl. intros [E|[]]. discriminate E.
Defined.

(** ** Keys and turns *)

Lemma lowerAscii_twice (c : ascii) : lowerAscii (lowerAscii c) = lowerAscii c.
Proof. destruct c as [[] [] [] [] [] [] [] []]; reflexivity. Qed.

Lemma toLowerCase_twice (s : string) : toLowerCase (toLowerCase s) = toLowerCase s.
Proof.
  induction s as [|c s IH]; [reflexivity|].
  simpl. rewrite lowerAscii_twice, IH. reflexivity.
Qed.

(** X11: [App] reads its keys without regard to case: a key and the same
    key in lower case do the same to every state, so W, A, S, D work with
    Caps Lock on.  [Canvas] looks the key up as it is: the capital letters
    W, A, S and D are no keys of its [map] and change nothing. *)
Theorem app_keys_ignore_case :
  (forall ekey st,
      App.handleKeyPress ekey st = App.handleKeyPress (toLowerCase ekey) st)
  /\
  (forall st,
      Canvas.handleKey "W" st = st /\ Canvas.handleKey "A" st = st /\
      Canvas.handleKey "S" st = st /\ Canvas.handleKey "D" st = st).
Proof.
  split.
  - intros ekey st. unfold App.handleKeyPress.
    rewrite toLowerCase_twice. reflexivity.
  - intros st. repeat split.
Qed.

(** X12: no single request turns the snake back on the pending direction,
    and a request touches nothing but the direction.  In [App] a key press
    leaves the pending direction as it is or replaces it by a unit direction
    at a right angle to it.  In [Canvas] a key other than the space bar, and
    a pad button, leave [direction] as it is or set it to a direction that
    is not the opposite of the pending one. *)
Theorem a_request_never_turns_back :
  (forall ekey st,
      App.handleKeyPress ekey st
      = App.setDirectionRef (App.directionRef (App.handleKeyPress ekey st)) st
      /\
      (App.directionRef (App.handleKeyPress ekey st) = App.directionRef st \/
       (unitDirection (App.directionRef (App.handleKeyPress ekey st)) /\
        dot (App.directionRef (App.handleKeyPress ekey st))
            (App.directionRef st) = 0)))
  /\
  (forall ekey st,
      ((ekey =? " ") || (ekey =? "Spacebar"))%string = false ->
      Canvas.handleKey ekey st
      = Canvas.setDirection (Canvas.direction (Canvas.handleKey ekey st)) st
      /\
      (Canvas.direction (Canvas.handleKey ekey st) = Canvas.direction st \/
       Canvas.direction (Canvas.handleKey ekey st)
       <> negate (Canvas.dirRef st)))
  /\
  (forall dx dy st,
      Canvas.turn dx dy st
      = Canvas.setDirection (Canvas.direction (Canvas.turn dx dy st)) st
      /\
      (Canvas.direction (Canvas.turn dx dy st) = Canvas.direction st \/
       Canvas.direction (Canvas.turn dx dy st) <> negate (Canvas.dirRef st))).
Proof.
  split; [|split].
  - intros ekey st.
    destruct (handleKeyPress_cases ekey st)
      as [->|[d [Hd [Hdot [_ [_ ->]]]]]].
    + split; [destruct st; reflexivity | left; reflexivity].
    + split; [reflexivity|]. right. split; assumption.
  - intros ekey st Hk.
    destruct (handleKey_cases ekey st) as [E|[->|[nd [_ [Hne ->]]]]].
    + exfalso. unfold Canvas.handleKey in E. rewrite Hk in E.
      destruct (Canvas.lookup ekey Canvas.map) as [nd|].
      * destruct ((x (Canvas.dirRef st) + x nd =? 0)
                  && (y (Canvas.dirRef st) + y nd =? 0)).
        -- apply (f_equal Canvas.running) in E. simpl in E.
           destruct (Canvas.running st); discriminate E.
        -- apply (f_equal Canvas.running) in E. simpl in E.
           destruct (Canvas.running st); discriminate E.
      * apply (f_equal Canvas.running) in E. simpl in E.
        destruct (Canvas.running st); discriminate E.
    + split; [destruct st; reflexivity | left; reflexivity].
    + split; [reflexivity|]. right. exact Hne.
  - intros dx dy st.
    destruct (turn_cases dx dy st) as [->|[Hne ->]].
    + split; [destruct st; reflexivity | left; reflexivity].
    + split; [reflexivity|]. right. exact Hne.
Qed.

Lemma a_request_never_turns_back_witness :
  Canvas.handleKey "ArrowUp" (Canvas.initial (mkRandom 0 0) 0)
  = Canvas.setDirection
      (Canvas.direction
         (Canvas.handleKey "ArrowUp" (Canvas.initial (mkRandom 0 0) 0)))
      (Canvas.initial (mkRandom 0 0) 0).
Proof.
  destruct a_request_never_turns_back as [_ [HK _]].
  apply (HK "ArrowUp"%string (Canvas.initial (mkRandom 0 0) 0)). reflexivity.
Defined.

(** ** High score, speed and the frame loop of [Canvas] *)

Lemma moveSnake_highScore scope st u st' :
  Canvas.moveSnake scope st u = Returns st' ->
  Canvas.highScore st <= Canvas.highScore st'.
Proof.
  unfold Canvas.moveSnake.
  destruct (Canvas.headOf (Canvas.snakeRef st)) as [head|]; [|discriminate].
  destruct (Canvas.landing scope head (Canvas.dirRef st)) as [newHead|];
    [|intros E; injection E as <-; simpl; lia].
  destruct (existsb _ (Canvas.snakeRef st));
    [intros E; injection E as <-; simpl; lia|].
  destruct (same newHead (Canvas.food scope));
    intros E; injection E as <-; simpl; lia.
Qed.

(** X13: the high score of [Canvas] only goes up: whatever the event, short
    of the Clear High button, the high score after it is at least the high
    score before; and when a tick ends the game the high score is at least
    the score that [endGame] reads. *)
Theorem high_score_only_goes_up :
  (forall w ev w',
      Canvas.dispatch ev w = Returns w' ->
      ev <> Canvas.ClickClearHigh ->
      Canvas.highScore (Canvas.scene w) <= Canvas.highScore (Canvas.scene w'))
  /\
  (forall scope st,
      Canvas.highScore st <= Canvas.highScore (Canvas.endGame scope st) /\
      Canvas.score scope <= Canvas.highScore (Canvas.endGame scope st) /\
      Canvas.endGame scope (Canvas.endGame scope st) = Canvas.endGame scope st).
Proof.
  split.
  - intros w ev w' Hd Hne. unfold Canvas.dispatch in Hd.
    destruct (Canvas.handle ev w) as [st1| |] eqn:Hh; try discriminate.
    injection Hd as <-. cbn [Canvas.rendered Canvas.scene Canvas.syncRefs
                             Canvas.highScore].
    destruct ev as [u|ekey|b| |u| | |v]; simpl in Hh.
    + destruct (Canvas.runningRef (Canvas.scene w)).
      * eapply moveSnake_highScore. exact Hh.
      * injection Hh as <-. lia.
    + injection Hh as <-.
      destruct (handleKey_cases ekey (Canvas.scene w))
        as [->|[->|[nd [_ [_ ->]]]]]; simpl; lia.
    + injection Hh as <-.
      destruct (turn_cases (fst (Canvas.padDelta b))
                  (snd (Canvas.padDelta b)) (Canvas.scene w))
        as [->|[_ ->]]; simpl; lia.
    + injection Hh as <-. simpl. lia.
    + injection Hh as <-. simpl. lia.
    + injection Hh as <-. simpl. lia.
    + contradiction.
    + injection Hh as <-. simpl. lia.
  - intros scope st. unfold Canvas.endGame. simpl.
    split; [lia|]. split; [lia|].
    unfold Canvas.setHighScore, Canvas.setRunning. simpl.
    f_equal. lia.
Qed.

Lemma high_score_only_goes_up_witness :
  Canvas.highScore (Canvas.scene (Canvas.mounted (mkRandom 0 0) 7))
  <= Canvas.highScore
       (Canvas.scene
          (Canvas.rendered (Canvas.mounted (mkRandom 0 0) 7)
             (Canvas.toggleWalls
                (Canvas.scene (Canvas.mounted (mkRandom 0 0) 7))))).
Proof.
  destruct high_score_only_goes_up as [H _].
  apply (H (Canvas.mounted (mkRandom 0 0) 7) Canvas.ClickWalls).
  - reflexivity.
  - discriminate.
Defined.

(** X14: the speed ramp of [Canvas].  A tick never lowers the speed; from a
    speed of at most 20 moves per second it never raises it above 20; a tick
    that does not eat leaves it as it is.  (The speed is a double in the
    code and an exact rational here; the three statements are of those that
    the rounding of [s + 0.3] keeps.) *)
Theorem speed_ramp_is_capped :
  forall scope st u st',
    Canvas.moveSnake scope st u = Returns st' ->
    (Canvas.speed st <= 20)%Q ->
    (Canvas.speed st <= Canvas.speed st')%Q /\
    (Canvas.speed st' <= 20)%Q /\
    (Canvas.score st' = Canvas.score st -> Canvas.speed st' = Canvas.speed st).
Proof.
  intros scope st u st' Hm Hcap.
  assert (Hsame : st' = Canvas.endGame scope st \/
                  (exists l, st' = Canvas.setSnake l st) \/
                  (Canvas.score st' = Canvas.score st + 1 /\
                   Canvas.speed st'
                   = Qmin 20 (Canvas.speed st + (3 # 10)))).
  { revert Hm. unfold Canvas.moveSnake.
    destruct (Canvas.headOf (Canvas.snakeRef st)) as [head|]; [|discriminate].
    destruct (Canvas.landing scope head (Canvas.dirRef st)) as [newHead|];
      [|intros E; injection E as <-; left; reflexivity].
    destruct (existsb _ (Canvas.snakeRef st));
      [intros E; injection E as <-; left; reflexivity|].
    destruct (same newHead (Canvas.food scope));
      intros E; injection E as <-.
    - right. right. split; reflexivity.
    - right. left. eexists. reflexivity. }
  destruct Hsame as [->|[[l ->]|[Hsc Hsp]]].
  - simpl. split; [apply Qle_refl|]. split; [exact Hcap | reflexivity].
  - simpl. split; [apply Qle_refl|]. split; [exact Hcap | reflexivity].
  - rewrite Hsp. split.
    + apply Q.min_glb; [exact Hcap|].
      rewrite <- (Qplus_0_r (Canvas.speed st)) at 1.
      apply Qplus_le_r. discriminate.
    + split; [apply Q.le_min_l|].
      intros E. lia.
Qed.

Lemma speed_ramp_is_capped_witness :
  exists st',
    Canvas.moveSnake
      (canvasPlaying (Canvas.start 20) dirRight {| x := 11; y := 10 |} true)
      (canvasPlaying (Canvas.start 20) dirRight {| x := 11; y := 10 |} true)
      (mkRandom 0 0)
    = Returns st' /\
    (Canvas.speed st' <= 20)%Q.
Proof.
  eexists. split; [reflexivity|].
  refine (proj1 (proj2
            (speed_ramp_is_capped
               (canvasPlaying (Canvas.start 20) dirRight
                  {| x := 11; y := 10 |} true)
               (canvasPlaying (Canvas.start 20) dirRight
                  {| x := 11; y := 10 |} true)
               (mkRandom 0 0) _ eq_refl _))).
  discriminate.
Defined.

Lemma rendered_keeps_scope w st1 :
  (Canvas.speed st1 == Canvas.speed (Canvas.scene w))%Q ->
  Canvas.tickScope (Canvas.rendered w st1) = Canvas.tickScope w.
Proof.
  intros E. unfold Canvas.rendered. cbn [Canvas.tickScope].
  apply Qeq_bool_iff in E.
  change (Canvas.speed (Canvas.syncRefs st1)) with (Canvas.speed st1).
  rewrite E. reflexivity.
Qed.

Lemma moveSnake_speed_at_cap scope st u st' :
  (Canvas.speed st == 20)%Q ->
  Canvas.moveSnake scope st u = Returns st' ->
  (Canvas.speed st' == Canvas.speed st)%Q.
Proof.
  intros Hcap. unfold Canvas.moveSnake.
  destruct (Canvas.headOf (Canvas.snakeRef st)) as [head|]; [|discriminate].
  destruct (Canvas.landing scope head (Canvas.dirRef st)) as [newHead|];
    [|intros E; injection E as <-; simpl; reflexivity].
  destruct (existsb _ (Canvas.snakeRef st));
    [intros E; injection E as <-; simpl; reflexivity|].
  destruct (same newHead (Canvas.food scope));
    intros E; injection E as <-; simpl; [|reflexivity].
  rewrite Hcap. apply Q.min_l. discriminate.
Qed.

(** X15: what reaches the frame loop of [Canvas].  The effect that installs
    [tick] depends on [speed] alone.  So a key, a pad button, Start/Pause,
    the Walls button and Clear High leave the loop with the render it had:
    the next tick still reads that render's food, score and wall mode, and
    after the Walls button the state shows the new wall mode while the loop
    keeps the old one.  The same holds for a tick at the top speed of 20,
    which eating can no longer raise. *)
Theorem frame_loop_is_renewed_by_speed_alone :
  (forall w ev w',
      leavesSpeed ev = true ->
      Canvas.dispatch ev w = Returns w' ->
      Canvas.tickScope w' = Canvas.tickScope w /\
      forall u,
        Canvas.runningRef (Canvas.scene w') = true ->
        Canvas.handle (Canvas.Frame u) w'
        = Canvas.moveSnake (Canvas.tickScope w) (Canvas.scene w') u)
  /\
  (forall w w',
      Canvas.dispatch Canvas.ClickWalls w = Returns w' ->
      Canvas.wrapWalls (Canvas.scene w')
      = negb (Canvas.wrapWalls (Canvas.scene w)) /\
      Canvas.wrapWalls (Canvas.tickScope w')
      = Canvas.wrapWalls (Canvas.tickScope w))
  /\
  (forall w u w',
      (Canvas.speed (Canvas.scene w) == 20)%Q ->
      Canvas.dispatch (Canvas.Frame u) w = Returns w' ->
      Canvas.tickScope w' = Canvas.tickScope w).
Proof.
  assert (Hfirst : forall w ev w',
             leavesSpeed ev = true ->
             Canvas.dispatch ev w = Returns w' ->
             Canvas.tickScope w' = Canvas.tickScope w).
  { intros w ev w' Hev Hd. unfold Canvas.dispatch in Hd.
    destruct (Canvas.handle ev w) as [st1| |] eqn:Hh; try discriminate.
    injection Hd as <-. apply rendered_keeps_scope.
    destruct ev as [u|ekey|b| |u| | |v]; simpl in Hh, Hev;
      try discriminate Hev; injection Hh as <-.
    - destruct (handleKey_cases ekey (Canvas.scene w))
        as [->|[->|[nd [_ [_ ->]]]]]; reflexivity.
    - destruct (turn_cases (fst (Canvas.padDelta b))
                  (snd (Canvas.padDelta b)) (Canvas.scene w))
        as [->|[_ ->]]; reflexivity.
    - reflexivity.
    - reflexivity.
    - reflexivity. }
  split; [|split].
  - intros w ev w' Hev Hd.
    pose proof (Hfirst w ev w' Hev Hd) as Hscope.
    split; [exact Hscope|].
    intros u Hrun. cbn [Canvas.handle]. rewrite Hrun, Hscope. reflexivity.
  - intros w w' Hd. split.
    + unfold Canvas.dispatch in Hd. simpl in Hd. injection Hd as <-.
      reflexivity.
    + rewrite (Hfirst w Canvas.ClickWalls w' eq_refl Hd). reflexivity.
  - intros w u w' Hcap Hd. unfold Canvas.dispatch in Hd.
    destruct (Canvas.handle (Canvas.Frame u) w) as [st1| |] eqn:Hh;
      try discriminate.
    injection Hd as <-. apply rendered_keeps_scope.
    simpl in Hh. destruct (Canvas.runningRef (Canvas.scene w)).
    + eapply moveSnake_speed_at_cap; eassumption.
    + injection Hh as <-. reflexivity.
Qed.

Lemma frame_loop_is_renewed_by_speed_alone_witness :
  Canvas.wrapWalls
    (Canvas.scene
       (Canvas.rendered (Canvas.mounted (mkRandom 0 0) 0)
          (Canvas.toggleWalls
             (Canvas.scene (Canvas.mounted (mkRandom 0 0) 0)))))
  = negb (Canvas.wrapWalls (Canvas.scene (Canvas.mounted (mkRandom 0 0) 0)))
  /\
  Canvas.wrapWalls
    (Canvas.tickScope
       (Canvas.rendered (Canvas.mounted (mkRandom 0 0) 0)
          (Canvas.toggleWalls
             (Canvas.scene (Canvas.mounted (mkRandom 0 0) 0)))))
  = Canvas.wrapWalls (Canvas.tickScope (Canvas.mounted (mkRandom 0 0) 0)).
Proof.
  destruct frame_loop_is_renewed_by_speed_alone as [_ [H _]].
  apply (H (Canvas.mounted (mkRandom 0 0) 0)). reflexivity.
Defined.

Lemma space_toggles st : Canvas.handleKey " " st = Canvas.toggleRunning st.
Proof. reflexivity. Qed.

Lemma toggle_twice st :
  Canvas.dirRef st = Canvas.direction st ->
  Canvas.snakeRef st = Canvas.snake st ->
  Canvas.runningRef st = Canvas.running st ->
  Canvas.syncRefs
    (Canvas.toggleRunning (Canvas.syncRefs (Canvas.toggleRunning st)))
  = st.
Proof.
  destruct st. simpl. intros -> -> ->.
  unfold Canvas.toggleRunning, Canvas.setRunning, Canvas.syncRefs. simpl.
  rewrite negb_involutive. reflexivity.
Qed.

Lemma dispatch_toggle w ev :
  Canvas.handle ev w = Returns (Canvas.toggleRunning (Canvas.scene w)) ->
  Canvas.dispatch ev w
  = Returns
      {| Canvas.scene := Canvas.syncRefs (Canvas.toggleRunning (Canvas.scene w));
         Canvas.tickScope := Canvas.tickScope w |}.
Proof.
  intros Hh. unfold Canvas.dispatch. rewrite Hh. unfold Canvas.rendered.
  change (Canvas.speed
            (Canvas.syncRefs (Canvas.toggleRunning (Canvas.scene w))))
    with (Canvas.speed (Canvas.scene w)).
  rewrite Qeq_bool_refl. reflexivity.
Qed.

(** X16: pausing and resuming [Canvas] between two ticks changes nothing:
    from any render of a game, two presses of the space bar, or two clicks
    on Start/Pause, give back the very same component, frame loop
    included. *)
Theorem pause_then_resume_changes_nothing :
  forall w,
    Canvas.reachable w ->
    Canvas.run [ Canvas.KeyDown " "; Canvas.KeyDown " " ] w = Returns w /\
    Canvas.run [ Canvas.ClickStart; Canvas.ClickStart ] w = Returns w.
Proof.
  intros w Hw.
  destruct (canvasShape_reachable w Hw) as [_ [_ [Hd [Hs [Hr _]]]]].
  assert (Hboth : forall ev,
             (forall v, Canvas.handle ev v
                        = Returns (Canvas.toggleRunning (Canvas.scene v))) ->
             Canvas.run [ ev; ev ] w = Returns w).
  { intros ev Hev. cbn [Canvas.run].
    rewrite (dispatch_toggle w ev (Hev w)).
    rewrite (dispatch_toggle _ ev (Hev _)).
    cbn [Canvas.scene Canvas.tickScope].
    rewrite (toggle_twice _ Hd Hs Hr). destruct w; reflexivity. }
  split; apply Hboth; intros v; reflexivity.
Qed.

Lemma pause_then_resume_changes_nothing_witness :
  Canvas.run [ Canvas.KeyDown " "; Canvas.KeyDown " " ]
    (Canvas.mounted (mkRandom 0 0) 0)
  = Returns (Canvas.mounted (mkRandom 0 0) 0).
Proof.
  apply pause_then_resume_changes_nothing. apply Canvas.reachable_mounted.
Defined.

(** ** The frame loop and the painter *)

Lemma ticks_step speed last now running rest :
  ticks speed last ((now, running) :: rest)
  = (let (n, final) := ticks speed (snd (tick speed running last now)) rest in
     ((if fst (tick speed running last now) then S n else n), final)).
Proof.
  cbn [ticks]. destruct (tick speed running last now). reflexivity.
Qed.

(** X17: the frame loop moves the snake at most [speed] times a second.
    Over any run of animation frames, whatever their times and whether the
    game is running or not at each, the calls of [moveSnake] are at least
    [1000 / speed] milliseconds apart: their number times the interval is
    at most the time from the first value of [lastMoveRef] to its last. *)
Theorem frame_loop_keeps_the_pace :
  forall speed lastMoveRef frames,
    (0 < speed)%Q ->
    (inject_Z (Z.of_nat (fst (ticks speed lastMoveRef frames)))
     * (1000 / speed)
     <= inject_Z (snd (ticks speed lastMoveRef frames) - lastMoveRef))%Q.
Proof.
  intros speed last frames Hpos. revert last.
  induction frames as [|[now running] rest IH]; intros last.
  - cbn [ticks fst snd]. rewrite Z.sub_diag. simpl.
    rewrite Qmult_0_l. apply Qle_refl.
  - rewrite ticks_step. unfold tick.
    destruct (running && Qle_bool (1000 / speed) (inject_Z (now - last)))
      eqn:E; cbn [fst snd].
    + apply andb_true_iff in E. destruct E as [_ E].
      apply Qle_bool_iff in E.
      specialize (IH now). destruct (ticks speed now rest) as [n final].
      cbn [fst snd] in *.
      rewrite Nat2Z.inj_succ. unfold Z.succ.
      rewrite inject_Z_plus.
      replace (final - last) with ((final - now) + (now - last)) by lia.
      rewrite inject_Z_plus. rewrite Qmult_plus_distr_l, Qmult_1_l.
      apply Qplus_le_compat; assumption.
    + specialize (IH last). destruct (ticks speed last rest) as [n final].
      exact IH.
Qed.

Lemma frame_loop_keeps_the_pace_witness :
  (inject_Z
     (Z.of_nat
        (fst (ticks 8 0 [ (100, true); (130, true); (260, true) ]%Z)))
   * (1000 / 8)
   <= inject_Z
        (snd (ticks 8 0 [ (100, true); (130, true); (260, true) ]%Z) - 0))%Q.
Proof.
  apply frame_loop_keeps_the_pace. reflexivity.
Defined.

Lemma drawSnakeFrom_body (i n : nat) (body : list point) (head : point)
    (cellSize : Z) :
  (i + List.length body + 1 = n)%nat ->
  drawSnakeFrom i n (body ++ [head]) cellSize
  = List.map (fun p => drawCell (x p) (y p) cellSize "#34d399" 2) body
    ++ [ drawCell (x head) (y head) cellSize "#10b981" 4 ].
Proof.
  revert i. induction body as [|p body IH]; intros i Hn.
  - simpl in *. replace (i =? n - 1)%nat with true; [reflexivity|].
    symmetry. apply Nat.eqb_eq. lia.
  - simpl in *. replace (i =? n - 1)%nat with false.
    + rewrite IH by lia. reflexivity.
    + symmetry. apply Nat.eqb_neq. lia.
Qed.

(** X18: [draw] paints as the head the cell that [moveSnake] moves.  For a
    snake with its head [head] at the end of the array, the pieces painted
    are the food in red, then every other cell of the snake in the body
    colour with corner radius 2, then [head], last and on top, in the head
    colour with corner radius 4; and [head] is the cell [moveSnake] reads as
    the head. *)
Theorem the_painted_head_is_the_moving_head :
  forall body head food cellSize,
    drawPieces (body ++ [head]) food cellSize
    = drawCell (x food) (y food) cellSize "#ef4444" 0
      :: List.map (fun p => drawCell (x p) (y p) cellSize "#34d399" 2) body
      ++ [ drawCell (x head) (y head) cellSize "#10b981" 4 ]
    /\
    Canvas.headOf (body ++ [head]) = Some head.
Proof.
  intros body head food cellSize. split.
  - unfold drawPieces. rewrite drawSnakeFrom_body; [reflexivity|].
    rewrite length_app. simpl. lia.
  - apply headOf_push.
Qed.

(** X19: the cells are painted apart.  With cells of [size] >= 2 pixels,
    [drawCell] paints a cell of the [g] x [g] board inside the canvas of
    [g * size] pixels a side, inside the square of that cell with a margin
    of one pixel, so that the rectangles of two different cells never
    overlap. *)
Theorem cells_are_painted_apart :
  forall g size color radius c,
    2 <= size ->
    inGrid g c ->
    (let '(px, py, w, h) := boxOf (drawCell (x c) (y c) size color radius) in
     x c * size < px /\ px + w < (x c + 1) * size /\
     y c * size < py /\ py + h < (y c + 1) * size /\
     0 <= px /\ px + w <= g * size /\ 0 <= py /\ py + h <= g * size /\
     0 <= w /\ 0 <= h)
    /\
    (forall color' radius' c',
        c' <> c ->
        let '(px, py, w, h) :=
          boxOf (drawCell (x c) (y c) size color radius) in
        let '(px', py', w', h') :=
          boxOf (drawCell (x c') (y c') size color' radius') in
        px + w < px' \/ px' + w' < px \/ py + h < py' \/ py' + h' < py).
Proof.
  intros g size color radius c Hsize [Hx Hy].
  assert (Hbox : forall col rad d,
             boxOf (drawCell (x d) (y d) size col rad)
             = (x d * size + 1, y d * size + 1, size - 2, size - 2)).
  { intros col rad d. unfold drawCell. destruct (rad >? 0); reflexivity. }
  split.
  - rewrite Hbox. repeat split; nia.
  - intros color' radius' c' Hne. rewrite !Hbox.
    assert (Hc : x c <> x c' \/ y c <> y c').
    { destruct (Z.eq_dec (x c) (x c')) as [Ex|Ex]; [|left; exact Ex].
      destruct (Z.eq_dec (y c) (y c')) as [Ey|Ey]; [|right; exact Ey].
      exfalso. apply Hne. destruct c, c'. simpl in *. subst. reflexivity. }
    destruct Hc as [Hc|Hc].
    + assert (x c < x c' \/ x c' < x c) as [H|H] by lia.
      * left. nia.
      * right. left. nia.
    + assert (y c < y c' \/ y c' < y c) as [H|H] by lia.
      * right. right. left. nia.
      * right. right. right. nia.
Qed.

Lemma cells_are_painted_apart_witness :
  let '(px, py, w, h) :=
    boxOf (drawCell 3 4 20 "#ef4444" 0) in
  let '(px', py', w', h') :=
    boxOf (drawCell 4 4 20 "#10b981" 4) in
  px + w < px' \/ px' + w' < px \/ py + h < py' \/ py' + h' < py.
Proof.
  refine (proj2
            (cells_are_painted_apart 20 20 "#ef4444" 0 {| x := 3; y := 4 |}
               _ _)
            "#10b981"%string 4 {| x := 4; y := 4 |} _).
  - lia.
  - unfold inGrid. simpl. lia.
  - discriminate.
Defined.

(** ** A lost game of [Canvas], resumed *)

(** X20: a lost game of [Canvas] is lost again when it is resumed as it is.
    If a tick of a running game ends in [endGame], then after the player
    resumes with the space bar or the Start button (the refs synchronised by
    the renders in between), the next tick of the same frame loop finds
    [running] set, meets the same wall or the same cell of the snake, and
    ends in [endGame] again: only a turn made before it can save the
    game. *)
Theorem a_lost_game_resumed_is_lost_again :
  forall scope st u u',
    Canvas.running st = true ->
    Canvas.snakeRef st = Canvas.snake st ->
    Canvas.dirRef st = Canvas.direction st ->
    Canvas.moveSnake scope st u = Returns (Canvas.endGame scope st) ->
    Canvas.runningRef
      (Canvas.syncRefs
         (Canvas.toggleRunning (Canvas.syncRefs (Canvas.endGame scope st))))
    = true /\
    Canvas.moveSnake scope
      (Canvas.syncRefs
         (Canvas.toggleRunning (Canvas.syncRefs (Canvas.endGame scope st))))
      u'
    = Returns
        (Canvas.endGame scope
           (Canvas.syncRefs
              (Canvas.toggleRunning
                 (Canvas.syncRefs (Canvas.endGame scope st))))).
Proof.
  intros scope st u u' Hrun Hsn Hdr Hm. split; [reflexivity|].
  revert Hm. unfold Canvas.moveSnake.
  cbn [Canvas.snakeRef Canvas.dirRef Canvas.syncRefs Canvas.toggleRunning
       Canvas.endGame Canvas.setRunning Canvas.setHighScore Canvas.snake
       Canvas.direction].
  rewrite Hsn, Hdr.
  destruct (Canvas.headOf (Canvas.snake st)) as [head|]; [|discriminate].
  destruct (Canvas.landing scope head (Canvas.direction st)) as [newHead|];
    [|reflexivity].
  destruct (existsb _ (Canvas.snake st)); [reflexivity|].
  destruct (same newHead (Canvas.food scope)); intros E; exfalso;
    apply (f_equal (fun o => match o with
                             | Returns s => Canvas.running s
                             | _ => false
                             end)) in E;
    simpl in E; rewrite Hrun in E; discriminate E.
Qed.

Lemma a_lost_game_resumed_is_lost_again_witness :
  Canvas.moveSnake (canvasAtEdge false)
    (Canvas.syncRefs
       (Canvas.toggleRunning
          (Canvas.syncRefs
             (Canvas.endGame (canvasAtEdge false) (canvasAtEdge false)))))
    (mkRandom 1 1)
  = Returns
      (Canvas.endGame (canvasAtEdge false)
         (Canvas.syncRefs
            (Canvas.toggleRunning
               (Canvas.syncRefs
                  (Canvas.endGame (canvasAtEdge false)
                     (canvasAtEdge false)))))).
Proof.
  apply (a_lost_game_resumed_is_lost_again (canvasAtEdge false)
           (canvasAtEdge false) (mkRandom 0 0) (mkRandom 1 1));
    reflexivity.
Defined.
